(** * Wallpaper Gacha Manager: rotation store, candidate selection and cycle

    A shallow embedding of [wallpaper-manager.py] (class [WallpaperManager]).

    - The SQLite table [wallpaper_history] has a [UNIQUE] [filename] column and
      is only ever addressed through it, so it is a finite map from filenames
      to the remaining columns.  The surrogate [id] column is never read or
      written by any statement of the program and is left out.
    - The table [rotation_state] holds at most one row ([CHECK (id = 1)]), so
      it is an [option].
    - The local image directory is a list of entry names; a [Path] of that
      flat directory is identified with its [name].
    - [datetime.now()], the outcome of [rsync], [random.choice] and the
      [hyprctl] subprocesses are inputs supplied by the environment. *)

From Stdlib Require Import ZArith String Ascii.
From stdpp Require Import gmap strings list fin_maps fin_sets.

Local Open Scope Z_scope.
Local Open Scope string_scope.

(** ** Data model *)

(** [datetime.now().isoformat()] *)
Abbreviation timestamp := string.

(** A row of [wallpaper_history], keyed by its [filename]. *)
Record ImageRecord : Type := mkImageRecord {
  first_displayed_at : timestamp;
  last_displayed_at : timestamp;
  display_count : Z
}.

(** The row of [rotation_state]. *)
Record RotationState : Type := mkRotationState {
  all_images_shown : bool;
  last_reset_at : option timestamp
}.

(** The database file [wallpaper-history.db]. *)
Record Store : Type := mkStore {
  wallpaper_history : gmap string ImageRecord;
  rotation_state : option RotationState
}.

Global Instance ImageRecord_eq_dec : EqDecision ImageRecord.
Proof. solve_decision. Defined.

Global Instance RotationState_eq_dec : EqDecision RotationState.
Proof. solve_decision. Defined.

Global Instance Store_eq_dec : EqDecision Store.
Proof. solve_decision. Defined.

(** A database file in which no table holds a row. *)
Definition empty_store : Store :=
  {| wallpaper_history := ∅; rotation_state := None |}.

(** [init_database]: the two [CREATE TABLE IF NOT EXISTS] keep existing rows;
    [INSERT OR IGNORE INTO rotation_state (id) VALUES (1)] adds the row with
    its column defaults ([all_images_shown] 0, [last_reset_at] NULL) unless
    it is already there. *)
Definition init_database (db : Store) : Store :=
  {| wallpaper_history := wallpaper_history db;
     rotation_state :=
       match rotation_state db with
       | Some st => Some st
       | None => Some {| all_images_shown := false; last_reset_at := None |}
       end |}.

(** ** Image pool *)

Definition extensions : list string :=
  [".png"; ".jpg"; ".jpeg"; ".jxl"; ".webp"].

(** The pattern [f"*{ext}"] matches exactly the names that end in [ext]. *)
Definition glob_match (ext name : string) : bool :=
  String.prefix (String.rev ext) (String.rev name).

Definition glob (ext : string) (files : list string) : list string :=
  List.filter (glob_match ext) files.

(** [get_available_images]: one [glob] per extension, results appended in
    the order of [extensions]. *)
Definition get_available_images (files : list string) : list string :=
  List.fold_left (fun images ext => (images ++ glob ext files)%list) extensions [].

(** ** Rotation store operations *)

(** [all_shown = state[0] if state else False] *)
Definition all_shown (db : Store) : bool :=
  match rotation_state db with
  | Some st => all_images_shown st
  | None => false
  end.

Definition is_shown (r : ImageRecord) : Prop := 0 < display_count r.

Global Instance is_shown_dec r : Decision (is_shown r).
Proof. unfold is_shown. apply _. Defined.

(** [SELECT ... FROM wallpaper_history WHERE display_count > 0] *)
Definition shown_rows (db : Store) : gmap string ImageRecord :=
  filter (fun kr => is_shown kr.2) (wallpaper_history db).

(** [shown_filenames = {row[0] for row in cursor.fetchall()}] *)
Definition shown_filenames (db : Store) : gset string :=
  dom (shown_rows db).

Definition zero_count (r : ImageRecord) : ImageRecord :=
  {| first_displayed_at := first_displayed_at r;
     last_displayed_at := last_displayed_at r;
     display_count := 0 |}.

(** The two statements run under [if all_shown:],
    [UPDATE wallpaper_history SET display_count = 0] and
    [UPDATE rotation_state SET all_images_shown = 0, last_reset_at = ?]. *)
Definition reset_rotation (now : timestamp) (db : Store) : Store :=
  {| wallpaper_history := zero_count <$> wallpaper_history db;
     rotation_state :=
       (fun _ => {| all_images_shown := false; last_reset_at := Some now |})
         <$> rotation_state db |}.

(** [get_unshown_images]: returns the store it leaves behind and the list
    [unshown]. *)
Definition get_unshown_images (files : list string) (now : timestamp)
    (db : Store) : Store * list string :=
  let all_images := get_available_images files in
  let db' := if all_shown db then reset_rotation now db else db in
  let shown := shown_filenames db' in
  (db', filter (fun img => img ∉ shown) all_images).

(** The upsert of [mark_image_displayed]. *)
Definition upsert (filename : string) (now : timestamp)
    (h : gmap string ImageRecord) : gmap string ImageRecord :=
  match h !! filename with
  | None =>
      <[filename := {| first_displayed_at := now;
                       last_displayed_at := now;
                       display_count := 1 |}]> h
  | Some r =>
      <[filename := {| first_displayed_at := first_displayed_at r;
                       last_displayed_at := now;
                       display_count := display_count r + 1 |}]> h
  end.

(** [UPDATE rotation_state SET all_images_shown = 1 WHERE id = 1] *)
Definition set_all_images_shown (st : RotationState) : RotationState :=
  {| all_images_shown := true; last_reset_at := last_reset_at st |}.

(** [mark_image_displayed] *)
Definition mark_image_displayed (files : list string) (now : timestamp)
    (filename : string) (db : Store) : Store :=
  let h := upsert filename now (wallpaper_history db) in
  let shown_count := size (filter (fun kr => is_shown kr.2) h) in
  let total_images := length (get_available_images files) in
  if bool_decide (total_images ≤ shown_count)%nat
     && bool_decide (0 < total_images)%nat
  then {| wallpaper_history := h;
          rotation_state := set_all_images_shown <$> rotation_state db |}
  else {| wallpaper_history := h; rotation_state := rotation_state db |}.

(** ** Activation through hyprpaper *)

(** Outcome of one [subprocess.run(..., capture_output=True, text=True)]:
    the call raises (the program cannot be started), or completes with a
    return code and its standard output. *)
Inductive run_result : Type :=
| Raised
| Completed (returncode : Z) (stdout : string).

(** Outcome of [json.loads(result.stdout)] followed by
    [[m["name"] for m in monitors_data]]. *)
Inductive json_result : Type :=
| JSONDecodeError
| OtherError
| Names (names : list string).

(** What the configuration and the [hyprctl] processes answer. *)
Record HyprEnv : Type := mkHyprEnv {
  hyprpaper_monitors : list string;
  preload_run : string → run_result;
  monitors_run : run_result;
  monitor_names : string → json_result;
  wallpaper_run : string → nat → string → run_result
}.

(** The target list the loop runs over; [None] when an exception escapes to
    the enclosing [except Exception]. *)
Definition resolve_monitors (h : HyprEnv) : option (list string) :=
  let monitors := hyprpaper_monitors h in
  if bool_decide ("all" ∈ monitors) then
    match monitors_run h with
    | Raised => None
    | Completed returncode stdout =>
        if bool_decide (returncode = 0) then
          match monitor_names h stdout with
          | Names names => Some names
          | JSONDecodeError => Some ["DP-1"]
          | OtherError => None
          end
        else Some monitors
    end
  else Some monitors.

(** [for monitor in monitors]: a return code other than 0 is logged and the
    loop goes on; [false] when a call raises.  [k] counts the calls made. *)
Fixpoint set_each_monitor (run : nat → string → run_result) (k : nat)
    (monitors : list string) : bool :=
  match monitors with
  | [] => true
  | monitor :: rest =>
      match run k monitor with
      | Raised => false
      | Completed _ _ => set_each_monitor run (S k) rest
      end
  end.

(** [set_wallpaper_hyprpaper] *)
Definition set_wallpaper_hyprpaper (h : HyprEnv) (image : string) : bool :=
  match preload_run h image with
  | Raised => false
  | Completed returncode _ =>
      if bool_decide (returncode ≠ 0) then false
      else
        match resolve_monitors h with
        | None => false
        | Some monitors => set_each_monitor (wallpaper_run h image) 0 monitors
        end
  end.

(** ** One rotation cycle *)

Inductive level : Type := INFO | WARNING | ERROR.

(** The calls [change_wallpaper] makes and the lines it logs itself. *)
Inductive Event : Type :=
| CallGetUnshown
| CallSync
| CallChoice (selected : string)
| CallSetWallpaper (image : string)
| CallMark (filename : string)
| Log (lvl : level) (msg : string).

Global Instance level_eq_dec : EqDecision level.
Proof. solve_decision. Defined.

Global Instance Event_eq_dec : EqDecision Event.
Proof. solve_decision. Defined.

(** What the outside world answers during one [change_wallpaper]. *)
Record CycleEnv : Type := mkCycleEnv {
  files_select : list string;   (* directory at the first selection *)
  now_select : timestamp;
  sync_ok : bool;               (* result of [sync_images] *)
  files_retry : list string;    (* directory at the second selection *)
  now_retry : timestamp;
  pick : nat;                   (* random source of [random.choice] *)
  hypr : HyprEnv;
  files_record : list string;   (* directory at recording time *)
  now_record : timestamp
}.

Record World : Type := mkWorld {
  store : Store;
  trace : list Event
}.

(** State monad over the store and the trace of calls. *)
Definition M (A : Type) : Type := World → A * World.

Global Instance M_ret : MRet M := fun A a w => (a, w).

Global Instance M_bind : MBind M :=
  fun A B f m w => let '(a, w') := m w in f a w'.

Definition emit (ev : Event) : M unit :=
  fun w => (tt, {| store := store w; trace := trace w ++ [ev] |}).

Definition call_get_unshown_images (files : list string) (now : timestamp)
    : M (list string) :=
  fun w =>
    let '(db, unshown) := get_unshown_images files now (store w) in
    (unshown, {| store := db; trace := trace w ++ [CallGetUnshown] |}).

Definition call_sync_images (e : CycleEnv) : M bool :=
  emit CallSync;; mret (sync_ok e).

Definition call_set_wallpaper_hyprpaper (e : CycleEnv) (image : string)
    : M bool :=
  emit (CallSetWallpaper image);;
  mret (set_wallpaper_hyprpaper (hypr e) image).

Definition call_mark_image_displayed (files : list string) (now : timestamp)
    (filename : string) : M unit :=
  fun w =>
    (tt, {| store := mark_image_displayed files now filename (store w);
            trace := trace w ++ [CallMark filename] |}).

(** [random.choice(seq)] is [seq[randbelow(len(seq))]]; [None] is the
    [IndexError] raised on an empty sequence. *)
Definition choice (pick : nat) (seq : list string) : option string :=
  match seq with
  | [] => None
  | _ :: _ => seq !! (pick mod length seq)%nat
  end.

(** The second half of [change_wallpaper], from [random.choice] on: pick
    one of the candidates, activate it and, on success, record it.  The
    result is [None] when an exception escapes. *)
Definition display_one_of (e : CycleEnv) (unshown_images : list string)
    : M (option bool) :=
  match choice (pick e) unshown_images with
  | None => mret None
  | Some selected_image =>
      emit (CallChoice selected_image);;
      emit (Log INFO ("Selected wallpaper: " +:+ selected_image));;
      activated ← call_set_wallpaper_hyprpaper e selected_image;
      if activated : bool then
        call_mark_image_displayed (files_record e) (now_record e)
          selected_image;;
        mret (Some true)
      else mret (Some false)
  end.

(** [change_wallpaper] *)
Definition change_wallpaper (e : CycleEnv) : M (option bool) :=
  unshown_images ← call_get_unshown_images (files_select e) (now_select e);
  if bool_decide (unshown_images = []) then
    emit (Log WARNING "No unshown images available");;
    synced ← call_sync_images e;
    unshown_images ←
      (if synced : bool
       then call_get_unshown_images (files_retry e) (now_retry e)
       else mret unshown_images);
    if bool_decide (unshown_images = []) then
      emit (Log ERROR "No images available even after sync");;
      mret (Some false)
    else display_one_of e unshown_images
  else display_one_of e unshown_images.

(** Running one cycle on a store, with an empty trace to start from. *)
Definition run_cycle (e : CycleEnv) (db : Store) : option bool * World :=
  change_wallpaper e {| store := db; trace := [] |}.

(** The store a cycle leaves behind. *)
Definition store_after (e : CycleEnv) (db : Store) : Store :=
  store (run_cycle e db).2.

(** ** Predicates of the specification *)

(** The store as [__init__] leaves it on a new installation. *)
Definition fresh_store : Store := init_database empty_store.

(** The row of [rotation_state] exists. *)
Definition initialized (db : Store) : Prop := is_Some (rotation_state db).

(** Every image of the pool has a record with [display_count > 0]. *)
Definition every_pool_image_shown (files : list string) (db : Store) : Prop :=
  ∀ f, f ∈ get_available_images files →
       ∃ r, wallpaper_history db !! f = Some r ∧ 0 < display_count r.

(** The flag agrees with the predicate. *)
Definition flag_agrees (files : list string) (db : Store) : Prop :=
  all_shown db = true ↔ every_pool_image_shown files db.

(** The reset condition: the row exists, the flag is clear and every
    record has [display_count] 0. *)
Definition reset_condition (db : Store) : Prop :=
  initialized db ∧ all_shown db = false ∧
  map_Forall (fun _ r => display_count r = 0) (wallpaper_history db).

(** No record has a negative [display_count]. *)
Definition counts_nonneg (db : Store) : Prop :=
  map_Forall (fun _ r => (0 ≤ display_count r)%Z) (wallpaper_history db).

(** Successive [mark_image_displayed] calls, one per (filename, time). *)
Definition mark_all (files : list string) (calls : list (string * timestamp))
    (db : Store) : Store :=
  List.fold_left
    (fun db call => mark_image_displayed files call.2 call.1 db) calls db.

(** The directory and the store the program can reach: the directory is
    changed from outside ([rsync], or files deleted), the store by cycles. *)
Inductive reachable : list string → Store → Prop :=
| reach_init files :
    reachable files fresh_store
| reach_directory files files' db :
    reachable files db → reachable files' db
| reach_cycle e db :
    reachable (files_select e) db →
    reachable (files_record e) (store_after e db).

(** The same with the directory held at [files] throughout. *)
Inductive reachable_fixed (files : list string) : Store → Prop :=
| reachf_init :
    reachable_fixed files fresh_store
| reachf_select now db :
    reachable_fixed files db →
    reachable_fixed files (get_unshown_images files now db).1
| reachf_mark now f db :
    reachable_fixed files db →
    f ∈ get_available_images files →
    reachable_fixed files (mark_image_displayed files now f db)
| reachf_cycle e db :
    reachable_fixed files db →
    files_select e = files → files_retry e = files → files_record e = files →
    reachable_fixed files (store_after e db).

(** What holds of the store while the pool of [files] stays as it is. *)
Definition rotation_invariant (files : list string) (db : Store) : Prop :=
  initialized db ∧ counts_nonneg db
  ∧ shown_filenames db ⊆ list_to_set (get_available_images files)
  ∧ (all_shown db = true ↔
     list_to_set (get_available_images files) ⊆ shown_filenames db).

(** A trace without any event of the second half of a cycle. *)
Definition display_free (tr : list Event) : Prop :=
  ∀ g, (CallChoice g ∉ tr) ∧ (CallSetWallpaper g ∉ tr) ∧ (CallMark g ∉ tr).

(** How often the event [ev] occurs in a trace. *)
Definition occurrences (ev : Event) (tr : list Event) : nat :=
  length (filter (fun x => x = ev) tr).

(** ** Concrete environments *)

(** Two monitors; [results] gives the return code of each
    [hyprctl hyprpaper wallpaper] call by target. *)
Definition hypr_two_monitors (results : string → Z) : HyprEnv :=
  {| hyprpaper_monitors := ["all"];
     preload_run := fun _ => Completed 0 "ok";
     monitors_run := Completed 0 "[{name: DP-1}, {name: HDMI-A-1}]";
     monitor_names := fun _ => Names ["DP-1"; "HDMI-A-1"];
     wallpaper_run := fun _ _ monitor => Completed (results monitor) EmptyString |}.

(** Every target accepts the wallpaper. *)
Definition hypr_ok : HyprEnv := hypr_two_monitors (fun _ => 0).

(** [hyprctl hyprpaper wallpaper] fails on [HDMI-A-1] only. *)
Definition hypr_one_target_fails : HyprEnv :=
  hypr_two_monitors (fun monitor => if bool_decide (monitor = "HDMI-A-1") then 1 else 0).

(** The preload is refused. *)
Definition hypr_preload_fails : HyprEnv :=
  {| hyprpaper_monitors := ["all"];
     preload_run := fun _ => Completed 1 EmptyString;
     monitors_run := Completed 0 "[]";
     monitor_names := fun _ => Names ["DP-1"];
     wallpaper_run := fun _ _ _ => Completed 0 EmptyString |}.

(** A cycle over an unchanging directory [files]. *)
Definition steady_env (files : list string) (synced : bool) (h : HyprEnv)
    (now : timestamp) : CycleEnv :=
  {| files_select := files; now_select := now;
     sync_ok := synced;
     files_retry := files; now_retry := now;
     pick := 0; hypr := h;
     files_record := files; now_record := now |}.

(** An empty directory at selection; [rsync] then fails part-way, after
    [a.png] has arrived. *)
Definition sync_failed_env : CycleEnv :=
  {| files_select := []; now_select := "t1";
     sync_ok := false;
     files_retry := ["a.png"]; now_retry := "t2";
     pick := 0; hypr := hypr_ok;
     files_record := ["a.png"]; now_record := "t3" |}.

(** One image in the directory, and [hyprctl hyprpaper preload] refuses it. *)
Definition preload_fails_env : CycleEnv :=
  steady_env ["a.png"] true hypr_preload_fails "t2".

(** One image in the directory, two monitors, one of which refuses it. *)
Definition one_target_fails_env : CycleEnv :=
  steady_env ["a.png"] true hypr_one_target_fails "t1".

(** The store after [a.png], the only image, has been displayed once. *)
Definition store_a_shown : Store :=
  store_after (steady_env ["a.png"] true hypr_ok "t1") fresh_store.

(** ** The scheduler *)

(** [run_once]: [sync_images], whose result is dropped and which leaves the
    directory that [files_select] lists, then [change_wallpaper]; [None] when
    an exception escapes. *)
Definition run_once (e : CycleEnv) : M (option unit) :=
  emit CallSync;;
  r ← change_wallpaper e;
  mret ((fun _ : bool => tt) <$> r).

(** The [while True] loop of [run_daemon], for the iterations that complete
    before [KeyboardInterrupt] arrives during [time.sleep], which otherwise
    returns and touches neither the store nor the directory; [None] when an
    exception escapes [run_once], which ends the loop. *)
Fixpoint run_loop (es : list CycleEnv) : M (option unit) :=
  match es with
  | [] => mret (Some tt)
  | e :: es' =>
      r ← run_once e;
      match r with
      | None => mret None
      | Some _ => run_loop es'
      end
  end.

(** [run_daemon]: the initial run, then the loop. *)
Definition run_daemon (e0 : CycleEnv) (es : list CycleEnv) : M (option unit) :=
  r ← run_once e0;
  match r with
  | None => mret None
  | Some _ => run_loop es
  end.

(** The daemon started on a store, with an empty trace to start from. *)
Definition run_daemon_on (e0 : CycleEnv) (es : list CycleEnv) (db : Store)
    : option unit * World :=
  run_daemon e0 es {| store := db; trace := [] |}.

(** The filenames handed to [mark_image_displayed], in order. *)
Definition marked (tr : list Event) : list string :=
  omap (fun ev => match ev with CallMark f => Some f | _ => None end) tr.

(** The directory is [files] whenever the cycle looks at it. *)
Definition steady (files : list string) (e : CycleEnv) : Prop :=
  files_select e = files ∧ files_retry e = files ∧ files_record e = files.

(** hyprpaper accepts whatever image it is given. *)
Definition activates (e : CycleEnv) : Prop :=
  ∀ image, set_wallpaper_hyprpaper (hypr e) image = true.

(** Every [display_count] is 0 or 1. *)
Definition counts_01 (db : Store) : Prop :=
  map_Forall (fun _ r => display_count r = 0 ∨ display_count r = 1)
    (wallpaper_history db).

(** ** Configuration *)

#[local] Unset Elimination Schemes.

(** A decoded JSON value; an object is the [dict] that [json.load] builds. *)
Inductive json : Type :=
| JNull
| JBool (b : bool)
| JInt (n : Z)
| JFloat (text : string)
| JString (s : string)
| JArray (items : list json)
| JObject (members : gmap string json).

#[local] Set Elimination Schemes.

(** What [load_config] finds at [config_path]. *)
Inductive config_file : Type :=
| NoFile                      (* [os.path.exists] is false *)
| Unreadable                  (* [open] raises *)
| Undecodable                 (* [json.load] raises *)
| Decoded (value : json).

Inductive config_error : Type :=
| FileNotFoundError
| OSError
| ConfigDecodeError
| ValueError (missing : list string)
| TypeError
| AttributeError.

Definition required : list string :=
  ["remote_host"; "remote_user"; "remote_directory"; "local_directory"].

(** [field in config]: a key of a [dict], an element of a [list], a
    substring of a [str]; [None] is the [TypeError] of the other values. *)
Definition field_in (field : string) (config : json) : option bool :=
  match config with
  | JObject members => Some (bool_decide (is_Some (members !! field)))
  | JArray items =>
      Some (existsb (fun item => match item with
                                 | JString s => bool_decide (s = field)
                                 | _ => false
                                 end) items)
  | JString s =>
      Some (match String.index 0 field s with Some _ => true | None => false end)
  | _ => None
  end.

(** [[field for field in required if field not in config]] *)
Fixpoint missing_fields (fields : list string) (config : json)
    : option (list string) :=
  match fields with
  | [] => Some []
  | field :: rest =>
      match field_in field config with
      | None => None
      | Some present =>
          match missing_fields rest config with
          | None => None
          | Some missing => Some (if present then missing else field :: missing)
          end
      end
  end.

(** [config.setdefault(key, value)] *)
Definition setdefault (key : string) (value : json)
    (config : gmap string json) : gmap string json :=
  match config !! key with
  | Some _ => config
  | None => <[key := value]> config
  end.

Definition set_defaults (config : gmap string json) : gmap string json :=
  setdefault "hyprpaper_monitors" (JArray [JString "all"])
    (setdefault "log_level" (JString "INFO")
       (setdefault "rsync_port" (JInt 22)
          (setdefault "interval_minutes" (JInt 30) config))).

(** [load_config] *)
Definition load_config (file : config_file)
    : config_error + gmap string json :=
  match file with
  | NoFile => inl FileNotFoundError
  | Unreadable => inl OSError
  | Undecodable => inl ConfigDecodeError
  | Decoded config =>
      match missing_fields required config with
      | None => inl TypeError
      | Some (field :: rest) => inl (ValueError (field :: rest))
      | Some [] =>
          match config with
          | JObject members => inr (set_defaults members)
          | _ => inl AttributeError
          end
      end
  end.

(** ** Accounting *)



(** The wallpaper calls made for the targets [monitors], counted from [k],
    all complete. *)
Fixpoint all_complete (run : nat → string → run_result) (k : nat)
    (monitors : list string) : Prop :=
  match monitors with
  | [] => True
  | monitor :: rest => run k monitor ≠ Raised ∧ all_complete run (S k) rest
  end.

(** The store the cycles [es] leave, one after the other. *)
Definition cycles (es : list CycleEnv) (db : Store) : Store :=
  List.fold_left (fun db e => store_after e db) es db.

(** The filenames the cycles [es] record, in order. *)
Fixpoint cycle_marks (es : list CycleEnv) (db : Store) : list string :=
  match es with
  | [] => []
  | e :: es' =>
      (marked (trace (run_cycle e db).2) ++ cycle_marks es' (store_after e db))%list
  end.

(** A computation that only appends to the trace, and does the same
    whatever the trace holds. *)
Definition trace_extending {A} (m : M A) : Prop :=
  ∀ w, m w = ((m {| store := store w; trace := [] |}).1,
              {| store := store (m {| store := store w; trace := [] |}).2;
                 trace := trace w
                          ++ trace (m {| store := store w; trace := [] |}).2 |}).

(** The number of images shown in the current rotation, one cycle later. *)
Definition advance (N n : nat) : nat := (n mod N + 1)%nat.

(** [a.png] has been displayed while the directory held [a.png] and
    [x.png]; the flag is not set. *)
Definition store_c_stale : Store :=
  mark_image_displayed ["a.png"; "x.png"] "t1" "a.png" fresh_store.

(** A configuration file with the required fields only. *)
Definition minimal_config : gmap string json :=
  {[ "remote_host" := JString "example.org";
     "remote_user" := JString "me";
     "remote_directory" := JString "/srv/wallpapers";
     "local_directory" := JString "~/wallpapers" ]}.

(** ** Proof automation *)

(** Membership of an event in an explicit trace. *)
Ltac trace_mem H :=
  repeat (apply elem_of_app in H as [H|H]);
  repeat (apply elem_of_cons in H as [H|H]; [try discriminate H|]);
  try (apply elem_of_nil in H; destruct H).

(** [H] puts an event of the second half into a [display_free] trace. *)
Ltac free_contra Hfree H :=
  exfalso;
  first [ exact (proj1 (Hfree _) H)
        | exact (proj1 (proj2 (Hfree _)) H)
        | exact (proj2 (proj2 (Hfree _)) H) ].

(** An explicit trace is [display_free]. *)
Ltac display_free_tac :=
  let g := fresh "g" in let H := fresh "H" in
  intros g; split_and!; intros H; trace_mem H.

(** ** Examples *)

Example get_available_images_ex :
  get_available_images ["b.jpg"; "notes.txt"; "a.png"; "c.webp"; "x.PNG"]
  = ["a.png"; "b.jpg"; "c.webp"].
Proof. vm_compute. reflexivity. Qed.

(** The rotation over the pool [a.png], [b.png], [c.png]: all three are
    candidates at first, [c.png] alone once the other two are recorded; the
    third record sets the flag, and the next selection resets and returns
    all three again. *)
Example rotation_scenario :
  let files := ["a.png"; "b.png"; "c.png"] in
  let db2 :=
    mark_image_displayed files "t2" "b.png"
      (mark_image_displayed files "t1" "a.png" fresh_store) in
  let db3 := mark_image_displayed files "t3" "c.png" db2 in
  (get_unshown_images files "t0" fresh_store).2 = files
  ∧ all_shown db2 = false
  ∧ (get_unshown_images files "t2" db2).2 = ["c.png"]
  ∧ all_shown db3 = true
  ∧ (get_unshown_images files "t4" db3).2 = files
  ∧ all_shown (get_unshown_images files "t4" db3).1 = false.
Proof. vm_compute. repeat split; reflexivity. Qed.

Example store_a_shown_ex :
  store_a_shown =
  {| wallpaper_history :=
       {[ "a.png" := {| first_displayed_at := "t1"; last_displayed_at := "t1"; display_count := 1 |} ]};
     rotation_state := Some {| all_images_shown := true; last_reset_at := None |} |}.
Proof. vm_compute. reflexivity. Qed.


(** * Properties *)

(** ** The image pool *)

Lemma get_available_images_unfold files :
  get_available_images files
  = (glob ".png" files ++ glob ".jpg" files ++ glob ".jpeg" files
     ++ glob ".jxl" files ++ glob ".webp" files)%list.
Proof.
  unfold get_available_images, extensions. simpl.
  rewrite <- !List.app_assoc. reflexivity.
Qed.

Lemma elem_of_glob ext files f :
  f ∈ glob ext files ↔ f ∈ files ∧ glob_match ext f = true.
Proof.
  unfold glob. rewrite list_elem_of_In, List.filter_In, <- list_elem_of_In.
  reflexivity.
Qed.

Lemma elem_of_get_available_images files f :
  f ∈ get_available_images files ↔
  f ∈ files ∧ ∃ ext, ext ∈ extensions ∧ glob_match ext f = true.
Proof.
  rewrite get_available_images_unfold, !elem_of_app, !elem_of_glob.
  unfold extensions. split.
  - intros H.
    repeat (destruct H as [[? ?]|H] || destruct H as [? ?]);
      (split; [assumption|]); eexists; (split; [|eassumption]); set_solver.
  - intros [Hf (ext & Hext & Hm)].
    repeat (apply elem_of_cons in Hext as [->|Hext]); [tauto..|].
    inversion Hext.
Qed.

Lemma get_available_images_nil : get_available_images [] = [].
Proof. reflexivity. Qed.

Lemma prefix_both a b s :
  String.prefix a s = true → String.prefix b s = true →
  String.prefix a b = true ∨ String.prefix b a = true.
Proof.
  revert b s. induction a as [|c a IH]; intros b s Ha Hb;
    [left; destruct b; reflexivity|].
  destruct b as [|d b]; [right; reflexivity|].
  destruct s as [|x s]; [discriminate Ha|].
  simpl in Ha, Hb |- *.
  destruct (ascii_dec c x) as [->|]; [|discriminate Ha].
  destruct (ascii_dec d x) as [->|]; [|discriminate Hb].
  destruct (ascii_dec x x); [|congruence].
  eapply IH; eassumption.
Qed.

Lemma glob_match_disjoint e1 e2 f :
  e1 ∈ extensions → e2 ∈ extensions →
  glob_match e1 f = true → glob_match e2 f = true → e1 = e2.
Proof.
  unfold glob_match, extensions. intros H1 H2 M1 M2.
  destruct (prefix_both _ _ _ M1 M2) as [H|H]; revert H; clear M1 M2;
    repeat (apply elem_of_cons in H1 as [->|H1]);
    try (apply elem_of_nil in H1; destruct H1);
    repeat (apply elem_of_cons in H2 as [->|H2]);
    try (apply elem_of_nil in H2; destruct H2);
    vm_compute; congruence.
Qed.

Lemma NoDup_glob ext files : NoDup files → NoDup (glob ext files).
Proof.
  intros H. apply NoDup_ListNoDup. apply List.NoDup_filter.
  apply NoDup_ListNoDup. exact H.
Qed.

Lemma NoDup_get_available_images files :
  NoDup files → NoDup (get_available_images files).
Proof.
  intros Hfiles. rewrite get_available_images_unfold.
  repeat (apply NoDup_app; split_and!; [by apply NoDup_glob| |]);
    try by apply NoDup_glob.
  all: intros f Hf Hf'; apply elem_of_glob in Hf as [_ Hf];
    repeat (apply elem_of_app in Hf' as [Hf'|Hf']);
    apply elem_of_glob in Hf' as [_ Hf'];
    match type of Hf with glob_match ?e1 _ = _ =>
      match type of Hf' with glob_match ?e2 _ = _ =>
        assert (e1 = e2) as Heq
          by (apply (glob_match_disjoint e1 e2 f);
              [unfold extensions; set_solver | unfold extensions; set_solver
              | exact Hf | exact Hf']);
        discriminate Heq
      end
    end.
Qed.

(** ** Shown records *)

Lemma elem_of_shown_filenames db f :
  f ∈ shown_filenames db ↔
  ∃ r, wallpaper_history db !! f = Some r ∧ 0 < display_count r.
Proof.
  unfold shown_filenames, shown_rows. rewrite elem_of_dom. split.
  - intros [r Hr]. apply map_lookup_filter_Some in Hr as [Hr Hs].
    exists r. split; [exact Hr | exact Hs].
  - intros (r & Hr & Hs). exists r. apply map_lookup_filter_Some.
    split; [exact Hr | exact Hs].
Qed.

Lemma shown_rows_reset now db : shown_rows (reset_rotation now db) = ∅.
Proof.
  unfold shown_rows. apply map_empty_filter.
  apply map_Forall_lookup. intros f r Hr. simpl in Hr. rewrite lookup_fmap in Hr.
  destruct (wallpaper_history db !! f); simplify_eq/=.
  unfold is_shown. simpl. lia.
Qed.

Lemma shown_filenames_reset now db : shown_filenames (reset_rotation now db) = ∅.
Proof. unfold shown_filenames. rewrite shown_rows_reset. apply dom_empty_L. Qed.

Lemma all_shown_reset now db : all_shown (reset_rotation now db) = false.
Proof. unfold all_shown. simpl. destruct (rotation_state db); reflexivity. Qed.

Lemma filter_all {A} (P : A → Prop) `{!∀ x, Decision (P x)} (l : list A) :
  (∀ x, P x) → filter P l = l.
Proof.
  intros HP. induction l as [|x l IH]; [reflexivity|].
  rewrite filter_cons_True by apply HP. by rewrite IH.
Qed.

(** ** Candidate selection *)

Lemma get_unshown_images_exhausted files now db :
  all_shown db = true →
  get_unshown_images files now db
  = (reset_rotation now db, get_available_images files).
Proof.
  intros Hflag. unfold get_unshown_images. rewrite Hflag. cbv zeta.
  rewrite shown_filenames_reset. f_equal. apply filter_all. set_solver.
Qed.

Lemma get_unshown_images_not_exhausted files now db :
  all_shown db = false →
  get_unshown_images files now db
  = (db, filter (fun f => f ∉ shown_filenames db) (get_available_images files)).
Proof. intros Hflag. unfold get_unshown_images. rewrite Hflag. reflexivity. Qed.

Lemma get_unshown_images_store files now db :
  (get_unshown_images files now db).1
  = if all_shown db then reset_rotation now db else db.
Proof. reflexivity. Qed.

Lemma get_unshown_images_again files1 now1 files2 now2 db :
  (get_unshown_images files2 now2 (get_unshown_images files1 now1 db).1).1
  = (get_unshown_images files1 now1 db).1.
Proof.
  rewrite !get_unshown_images_store.
  destruct (all_shown db) eqn:Hflag.
  - rewrite all_shown_reset. reflexivity.
  - rewrite Hflag. reflexivity.
Qed.

Lemma elem_of_get_unshown_images files now db f :
  f ∈ (get_unshown_images files now db).2 → f ∈ get_available_images files.
Proof. simpl. rewrite list_elem_of_filter. tauto. Qed.

(** C2: the list [get_unshown_images] returns is the pool without the
    filenames whose record has [display_count > 0] in the store the call
    leaves behind (after the reset, if the call made one); no returned
    filename is shown there, and an empty pool gives the empty list. *)
Theorem get_unshown_images_pool_minus_shown files now db :
  let db' := (get_unshown_images files now db).1 in
  let unshown := (get_unshown_images files now db).2 in
  db' = (if all_shown db then reset_rotation now db else db)
  ∧ unshown = filter (fun f => f ∉ shown_filenames db') (get_available_images files)
  ∧ (∀ f, f ∈ unshown ↔
          f ∈ get_available_images files
          ∧ ¬ ∃ r, wallpaper_history db' !! f = Some r ∧ 0 < display_count r)
  ∧ (get_available_images files = [] → unshown = []).
Proof.
  simpl. split; [reflexivity|]. split; [reflexivity|]. split.
  - intros f. rewrite list_elem_of_filter, elem_of_shown_filenames. tauto.
  - intros ->. reflexivity.
Qed.

(** C5: when the flag is set, [get_unshown_images] leaves the store reset
    once (every [display_count] 0, flag clear, [last_reset_at] the current
    time) and returns the whole pool; a reset store is not reset again. *)
Theorem get_unshown_images_resets_when_exhausted files now db :
  all_shown db = true →
  let db' := (get_unshown_images files now db).1 in
  db' = reset_rotation now db
  ∧ (∀ f r, wallpaper_history db' !! f = Some r → display_count r = 0)
  ∧ all_shown db' = false
  ∧ rotation_state db'
    = Some {| all_images_shown := false; last_reset_at := Some now |}
  ∧ (get_unshown_images files now db).2 = get_available_images files
  ∧ (∀ files' now', (get_unshown_images files' now' db').1 = db').
Proof.
  intros Hflag. rewrite get_unshown_images_exhausted by exact Hflag. simpl.
  split_and!.
  - reflexivity.
  - intros f r Hr. rewrite lookup_fmap in Hr.
    destruct (wallpaper_history db !! f); simplify_eq/=. reflexivity.
  - apply all_shown_reset.
  - unfold all_shown in Hflag.
    destruct (rotation_state db); [reflexivity | discriminate].
  - reflexivity.
  - intros _ now'. rewrite all_shown_reset. reflexivity.
Qed.

Lemma get_unshown_images_resets_when_exhausted_witness :
  all_shown store_a_shown = true
  ∧ (get_unshown_images ["a.png"] "t2" store_a_shown).2 = ["a.png"].
Proof.
  split; [vm_compute; reflexivity|].
  apply (get_unshown_images_resets_when_exhausted ["a.png"] "t2" store_a_shown).
  vm_compute; reflexivity.
Defined.

(** ** The cycle reset *)

Lemma zero_count_id r : display_count r = 0 → zero_count r = r.
Proof. destruct r as [t1 t2 c]. simpl. intros ->. reflexivity. Qed.

Lemma lookup_reset_rotation now db f :
  wallpaper_history (reset_rotation now db) !! f
  = zero_count <$> wallpaper_history db !! f.
Proof. simpl. apply lookup_fmap. Qed.

(** C9: on a store already in the reset condition the reset changes no
    record and leaves the flag clear and every [display_count] at 0; it
    is a total function, so nothing is raised.  [get_unshown_images], the
    only caller of the reset, leaves such a store as it is. *)
Theorem reset_rotation_idempotent now db :
  reset_condition db →
  all_shown (reset_rotation now db) = false
  ∧ (∀ f r, wallpaper_history (reset_rotation now db) !! f = Some r →
            display_count r = 0)
  ∧ wallpaper_history (reset_rotation now db) = wallpaper_history db
  ∧ reset_condition (reset_rotation now db)
  ∧ (∀ files, (get_unshown_images files now db).1 = db).
Proof.
  intros (Hinit & Hflag & Hzero).
  assert (Hcounts : ∀ f r,
    wallpaper_history (reset_rotation now db) !! f = Some r →
    display_count r = 0).
  { intros f r. rewrite lookup_reset_rotation.
    destruct (wallpaper_history db !! f); intros; simplify_eq/=. reflexivity. }
  split_and!.
  - apply all_shown_reset.
  - exact Hcounts.
  - apply map_eq. intros f. rewrite lookup_reset_rotation.
    destruct (wallpaper_history db !! f) as [r|] eqn:Hr; [|reflexivity].
    simpl. f_equal. apply zero_count_id. eapply Hzero. exact Hr.
  - split_and!; [|apply all_shown_reset|exact Hcounts].
    destruct Hinit as [st Hst]. unfold initialized. simpl. rewrite Hst.
    eexists. reflexivity.
  - intros files. rewrite get_unshown_images_store, Hflag. reflexivity.
Qed.

Lemma reset_rotation_idempotent_witness :
  reset_condition (reset_rotation "t2" store_a_shown)
  ∧ wallpaper_history (reset_rotation "t3" (reset_rotation "t2" store_a_shown))
    = wallpaper_history (reset_rotation "t2" store_a_shown).
Proof.
  assert (H : reset_condition (reset_rotation "t2" store_a_shown)).
  { apply (bool_decide_unpack _). vm_compute. reflexivity. }
  split; [exact H|].
  apply (reset_rotation_idempotent "t3" (reset_rotation "t2" store_a_shown) H).
Defined.

(** C10: with the flag set, the store [get_unshown_images] leaves behind is
    the reset one whatever the directory holds, also when the pool is empty
    and the call returns the empty list: the store changes, the records keep
    their filenames and both timestamps, and only [display_count],
    [all_images_shown] and [last_reset_at] are written. *)
Theorem get_unshown_images_reset_frame files now db :
  all_shown db = true →
  let db' := (get_unshown_images files now db).1 in
  (∀ files', (get_unshown_images files' now db).1 = db')
  ∧ db' = reset_rotation now db
  ∧ db' ≠ db
  ∧ (get_available_images files = [] →
     (get_unshown_images files now db).2 = [])
  ∧ dom (wallpaper_history db') = dom (wallpaper_history db)
  ∧ (∀ f r, wallpaper_history db !! f = Some r →
       wallpaper_history db' !! f
       = Some {| first_displayed_at := first_displayed_at r;
                 last_displayed_at := last_displayed_at r;
                 display_count := 0 |})
  ∧ rotation_state db'
    = Some {| all_images_shown := false; last_reset_at := Some now |}.
Proof.
  intros Hflag. cbv zeta.
  rewrite get_unshown_images_exhausted by exact Hflag. cbn [fst snd].
  split_and!.
  - intros files'. rewrite get_unshown_images_exhausted by exact Hflag.
    reflexivity.
  - reflexivity.
  - intros Heq. pose proof (all_shown_reset now db) as Hclear.
    rewrite Heq in Hclear. congruence.
  - intros ->. reflexivity.
  - simpl. apply dom_fmap_L.
  - intros f r Hr. rewrite lookup_reset_rotation, Hr. reflexivity.
  - unfold all_shown in Hflag. simpl.
    destruct (rotation_state db); [reflexivity | discriminate].
Qed.

Lemma get_unshown_images_reset_frame_witness :
  all_shown store_a_shown = true
  ∧ (get_unshown_images [] "t2" store_a_shown).1 ≠ store_a_shown
  ∧ (get_unshown_images [] "t2" store_a_shown).2 = [].
Proof.
  assert (H : all_shown store_a_shown = true) by (vm_compute; reflexivity).
  pose proof (get_unshown_images_reset_frame [] "t2" store_a_shown H)
    as (_ & _ & Hne & Hnil & _).
  split_and!; [exact H | exact Hne | apply Hnil; reflexivity].
Defined.

(** ** Recording a display *)

Lemma wallpaper_history_mark files now f db :
  wallpaper_history (mark_image_displayed files now f db)
  = upsert f now (wallpaper_history db).
Proof. unfold mark_image_displayed. case_match; reflexivity. Qed.

(** C6: marking a filename the store has no record of, once at [t1] and
    again at [t2], leaves the record with [display_count] 2,
    [first_displayed_at] [t1] and [last_displayed_at] [t2]; after the first
    call it has count 1 and both timestamps [t1]. *)
Theorem mark_image_displayed_twice files1 files2 t1 t2 f db :
  wallpaper_history db !! f = None →
  wallpaper_history (mark_image_displayed files1 t1 f db) !! f
  = Some {| first_displayed_at := t1; last_displayed_at := t1;
            display_count := 1 |}
  ∧ wallpaper_history
      (mark_image_displayed files2 t2 f (mark_image_displayed files1 t1 f db))
    !! f
    = Some {| first_displayed_at := t1; last_displayed_at := t2;
              display_count := 2 |}.
Proof.
  intros Hnone.
  assert (H1 : wallpaper_history (mark_image_displayed files1 t1 f db) !! f
               = Some {| first_displayed_at := t1; last_displayed_at := t1;
                         display_count := 1 |}).
  { rewrite wallpaper_history_mark. unfold upsert. rewrite Hnone.
    apply lookup_insert_eq. }
  split; [exact H1|].
  rewrite wallpaper_history_mark. unfold upsert. rewrite H1.
  rewrite lookup_insert_eq. reflexivity.
Qed.

Lemma mark_image_displayed_twice_witness :
  wallpaper_history fresh_store !! "a.png" = None
  ∧ wallpaper_history
      (mark_image_displayed ["a.png"; "b.png"] "t2" "a.png"
         (mark_image_displayed ["a.png"; "b.png"] "t1" "a.png" fresh_store))
    !! "a.png"
    = Some {| first_displayed_at := "t1"; last_displayed_at := "t2";
              display_count := 2 |}.
Proof.
  split; [reflexivity|].
  apply (mark_image_displayed_twice ["a.png"; "b.png"] ["a.png"; "b.png"]
           "t1" "t2" "a.png" fresh_store).
  reflexivity.
Defined.
Lemma lookup_upsert f now h g :
  upsert f now h !! g
  = if decide (f = g) then
      Some (match h !! f with
            | None => {| first_displayed_at := now; last_displayed_at := now;
                         display_count := 1 |}
            | Some r => {| first_displayed_at := first_displayed_at r;
                           last_displayed_at := now;
                           display_count := display_count r + 1 |}
            end)
    else h !! g.
Proof.
  unfold upsert. destruct (h !! f) as [r|]; rewrite lookup_insert;
    case_decide; reflexivity.
Qed.

Lemma counts_nonneg_mark files now f db :
  counts_nonneg db → counts_nonneg (mark_image_displayed files now f db).
Proof.
  unfold counts_nonneg. intros Hnn g r.
  rewrite wallpaper_history_mark, lookup_upsert.
  case_decide as Hfg; [|apply Hnn].
  destruct (wallpaper_history db !! f) as [r0|] eqn:Hr0; intros [= <-]; simpl.
  - specialize (Hnn f r0 Hr0). simpl in Hnn. lia.
  - lia.
Qed.

Lemma counts_nonneg_reset now db : counts_nonneg (reset_rotation now db).
Proof.
  intros f r. rewrite lookup_reset_rotation.
  destruct (wallpaper_history db !! f); intros; simplify_eq/=. lia.
Qed.

Lemma shown_filenames_mark files now f db :
  counts_nonneg db →
  shown_filenames (mark_image_displayed files now f db)
  = {[f]} ∪ shown_filenames db.
Proof.
  intros Hnn. apply set_eq. intros g.
  rewrite elem_of_union, elem_of_singleton, !elem_of_shown_filenames.
  rewrite wallpaper_history_mark, lookup_upsert.
  case_decide as Hfg.
  - subst g. split; [auto|]. intros _.
    destruct (wallpaper_history db !! f) as [r0|] eqn:Hr0;
      eexists; (split; [reflexivity|]); simpl; [|lia].
    specialize (Hnn f r0 Hr0). simpl in Hnn. lia.
  - split; [auto|]. intros [->|H]; [congruence | exact H].
Qed.

Lemma rotation_state_mark files now f db :
  rotation_state (mark_image_displayed files now f db)
  = if bool_decide (length (get_available_images files)
                    ≤ size (shown_filenames (mark_image_displayed files now f db)))%nat
       && bool_decide (0 < length (get_available_images files))%nat
    then set_all_images_shown <$> rotation_state db
    else rotation_state db.
Proof.
  unfold shown_filenames, shown_rows. rewrite size_dom, wallpaper_history_mark.
  unfold mark_image_displayed. case_match; reflexivity.
Qed.

Lemma initialized_mark files now f db :
  initialized db → initialized (mark_image_displayed files now f db).
Proof.
  unfold initialized. rewrite rotation_state_mark. intros [st ->].
  case_match; eexists; reflexivity.
Qed.

Lemma all_shown_mark files now f db :
  initialized db →
  all_shown (mark_image_displayed files now f db)
  = all_shown db
    || (bool_decide (length (get_available_images files)
                     ≤ size (shown_filenames (mark_image_displayed files now f db)))%nat
        && bool_decide (0 < length (get_available_images files))%nat).
Proof.
  intros [st Hst]. unfold all_shown at 1 2. rewrite rotation_state_mark, Hst.
  destruct (_ && _); simpl; [rewrite orb_true_r | rewrite orb_false_r];
    reflexivity.
Qed.

Lemma mark_all_snoc files calls c db :
  mark_all files (calls ++ [c]) db
  = mark_image_displayed files c.2 c.1 (mark_all files calls db).
Proof. unfold mark_all. rewrite fold_left_app. reflexivity. Qed.

Lemma shown_filenames_reset_condition db :
  reset_condition db → shown_filenames db = ∅.
Proof.
  intros (_ & _ & Hzero). unfold shown_filenames, shown_rows.
  rewrite (map_empty_filter_2 _ (wallpaper_history db)); [apply dom_empty_L|].
  intros f r Hr. specialize (Hzero f r Hr). unfold is_shown. simpl in *. lia.
Qed.

Lemma counts_nonneg_reset_condition db :
  reset_condition db → counts_nonneg db.
Proof.
  intros (_ & _ & Hzero) f r Hr. specialize (Hzero f r Hr). simpl in *. lia.
Qed.

Lemma mark_all_invariant files calls db :
  reset_condition db →
  initialized (mark_all files calls db)
  ∧ counts_nonneg (mark_all files calls db)
  ∧ shown_filenames (mark_all files calls db) = list_to_set calls.*1.
Proof.
  intros Hreset. induction calls as [|c calls IH] using rev_ind.
  - split_and!; [apply Hreset | by apply counts_nonneg_reset_condition |].
    by apply shown_filenames_reset_condition.
  - destruct IH as (Hinit & Hnn & Hshown). rewrite mark_all_snoc. split_and!.
    + by apply initialized_mark.
    + by apply counts_nonneg_mark.
    + rewrite shown_filenames_mark by exact Hnn. rewrite Hshown.
      rewrite fmap_app, list_to_set_app_L. simpl.
      rewrite union_empty_r_L. apply (comm_L (∪)).
Qed.

(** C3: from a store in the reset condition, marking N distinct filenames,
    N >= 1 being the size of the pool, leaves the flag set; so it is after one
    display of each of the N pool images. *)
Theorem mark_all_exhausts files calls db :
  reset_condition db →
  NoDup calls.*1 →
  length calls = length (get_available_images files) →
  (1 ≤ length (get_available_images files))%nat →
  all_shown (mark_all files calls db) = true.
Proof.
  intros Hreset Hnodup Hlen Hpos.
  pose proof (mark_all_invariant files calls db Hreset) as (_ & _ & Hshown).
  destruct calls as [|c calls _] using rev_ind; [simpl in Hlen; lia|].
  rewrite mark_all_snoc, all_shown_mark
    by apply (mark_all_invariant files calls db Hreset).
  rewrite <- mark_all_snoc, Hshown, size_list_to_set by exact Hnodup.
  rewrite length_fmap, Hlen.
  rewrite !bool_decide_eq_true_2 by lia. apply orb_true_r.
Qed.

Lemma mark_all_exhausts_witness :
  all_shown
    (mark_all ["a.png"; "b.jpg"; "c.webp"]
       [("b.jpg", "t1"); ("c.webp", "t2"); ("a.png", "t3")] fresh_store)
  = true.
Proof.
  apply mark_all_exhausts.
  - apply (bool_decide_unpack _). vm_compute. reflexivity.
  - apply (bool_decide_unpack _). vm_compute. reflexivity.
  - reflexivity.
  - vm_compute. lia.
Defined.

(** ** One rotation cycle *)

Lemma choice_elem p (l : list string) :
  l ≠ [] → ∃ x, choice p l = Some x ∧ x ∈ l.
Proof.
  intros Hl. destruct l as [|y l]; [done|]. unfold choice.
  destruct (lookup_lt_is_Some_2 (y :: l) (p mod length (y :: l))%nat) as [x Hx].
  { apply Nat.mod_upper_bound. simpl. lia. }
  exists x. split; [exact Hx|]. eapply list_elem_of_lookup_2. exact Hx.
Qed.

(** The second half of a cycle, on a non-empty candidate list. *)
Lemma display_one_of_run e (l : list string) w :
  l ≠ [] →
  ∃ f, choice (pick e) l = Some f ∧ f ∈ l ∧
    display_one_of e l w
    = if set_wallpaper_hyprpaper (hypr e) f then
        (Some true,
         {| store := mark_image_displayed (files_record e) (now_record e) f (store w);
            trace := trace w ++ [CallChoice f; Log INFO ("Selected wallpaper: " +:+ f);
                                 CallSetWallpaper f; CallMark f] |})
      else
        (Some false,
         {| store := store w;
            trace := trace w ++ [CallChoice f; Log INFO ("Selected wallpaper: " +:+ f);
                                 CallSetWallpaper f] |}).
Proof.
  intros Hl. destruct (choice_elem (pick e) l Hl) as (f & Hf & Hin).
  exists f. split; [exact Hf|]. split; [exact Hin|].
  unfold display_one_of. rewrite Hf. destruct w as [db tr].
  unfold mbind, M_bind, mret, M_ret, emit, call_set_wallpaper_hyprpaper,
    call_mark_image_displayed; simpl.
  destruct (set_wallpaper_hyprpaper (hypr e) f); simpl;
    rewrite <- !app_assoc; reflexivity.
Qed.

(** The first half of a cycle. *)
Lemma run_cycle_unfold e db :
  run_cycle e db
  = let s1 := get_unshown_images (files_select e) (now_select e) db in
    let s2 := get_unshown_images (files_retry e) (now_retry e) s1.1 in
    if bool_decide (s1.2 = []) then
      if sync_ok e then
        if bool_decide (s2.2 = []) then
          (Some false,
           {| store := s2.1;
              trace := [CallGetUnshown; Log WARNING "No unshown images available";
                        CallSync; CallGetUnshown;
                        Log ERROR "No images available even after sync"] |})
        else
          display_one_of e s2.2
            {| store := s2.1;
               trace := [CallGetUnshown; Log WARNING "No unshown images available";
                         CallSync; CallGetUnshown] |}
      else
        (Some false,
         {| store := s1.1;
            trace := [CallGetUnshown; Log WARNING "No unshown images available";
                      CallSync; Log ERROR "No images available even after sync"] |})
    else display_one_of e s1.2 {| store := s1.1; trace := [CallGetUnshown] |}.
Proof.
  unfold run_cycle, change_wallpaper.
  unfold mbind, M_bind, mret, M_ret, emit, call_sync_images,
    call_get_unshown_images; simpl.
  destruct (get_unshown_images (files_select e) (now_select e) db)
    as [db1 u1]; simpl.
  case_bool_decide as Hu1; [|reflexivity].
  destruct (sync_ok e); simpl.
  - destruct (get_unshown_images (files_retry e) (now_retry e) db1)
      as [db2 u2]; simpl.
    case_bool_decide; reflexivity.
  - rewrite bool_decide_eq_true_2 by exact Hu1. reflexivity.
Qed.

(** A cycle either fails for want of candidates, leaving the store as the
    selection left it, or displays one candidate [f]. *)
Lemma run_cycle_outcome e db :
  let s1 := get_unshown_images (files_select e) (now_select e) db in
  let s2 := get_unshown_images (files_retry e) (now_retry e) s1.1 in
  (∃ tr, run_cycle e db = (Some false, {| store := s1.1; trace := tr |})
         ∧ display_free tr)
  ∨ (∃ f pre,
       (f ∈ s1.2 ∨ f ∈ s2.2) ∧ display_free pre ∧
       run_cycle e db
       = if set_wallpaper_hyprpaper (hypr e) f then
           (Some true,
            {| store := mark_image_displayed (files_record e) (now_record e) f s1.1;
               trace := pre ++ [CallChoice f; Log INFO ("Selected wallpaper: " +:+ f);
                                CallSetWallpaper f; CallMark f] |})
         else
           (Some false,
            {| store := s1.1;
               trace := pre ++ [CallChoice f; Log INFO ("Selected wallpaper: " +:+ f);
                                CallSetWallpaper f] |})).
Proof.
  cbv zeta. rewrite run_cycle_unfold. cbv zeta.
  rewrite get_unshown_images_again.
  set (s1 := get_unshown_images (files_select e) (now_select e) db).
  set (s2 := get_unshown_images (files_retry e) (now_retry e) s1.1).
  case_bool_decide as Hu1.
  - destruct (sync_ok e).
    + case_bool_decide as Hu2.
      * left. eexists. split; [reflexivity|]. display_free_tac.
      * right.
        edestruct (display_one_of_run e s2.2) as (f & _ & Hin & ->); [exact Hu2|].
        exists f. eexists. split; [right; exact Hin|].
        split; [|reflexivity]. display_free_tac.
    + left. eexists. split; [reflexivity|]. display_free_tac.
  - right.
    edestruct (display_one_of_run e s1.2) as (f & _ & Hin & ->); [exact Hu1|].
    exists f. eexists. split; [left; exact Hin|].
    split; [|reflexivity]. display_free_tac.
Qed.

(** The image handed to [set_wallpaper_hyprpaper] decides the cycle. *)
Lemma run_cycle_selected e db f :
  CallSetWallpaper f ∈ trace (run_cycle e db).2 →
  let s1 := get_unshown_images (files_select e) (now_select e) db in
  ∃ pre, display_free pre ∧
    run_cycle e db
    = if set_wallpaper_hyprpaper (hypr e) f then
        (Some true,
         {| store := mark_image_displayed (files_record e) (now_record e) f s1.1;
            trace := pre ++ [CallChoice f; Log INFO ("Selected wallpaper: " +:+ f);
                             CallSetWallpaper f; CallMark f] |})
      else
        (Some false,
         {| store := s1.1;
            trace := pre ++ [CallChoice f; Log INFO ("Selected wallpaper: " +:+ f);
                             CallSetWallpaper f] |}).
Proof.
  intros Hcall. cbv zeta.
  destruct (run_cycle_outcome e db) as [(tr & Hrun & Hfree)|(f' & pre & _ & Hfree & Hrun)].
  - rewrite Hrun in Hcall. simpl in Hcall. free_contra Hfree Hcall.
  - assert (f' = f) as ->.
    { rewrite Hrun in Hcall.
      destruct (set_wallpaper_hyprpaper (hypr e) f'); simpl in Hcall;
        trace_mem Hcall; first [free_contra Hfree Hcall | congruence]. }
    exists pre. split; [exact Hfree | exact Hrun].
Qed.

(** C4 (amended): when [set_wallpaper_hyprpaper] returns [False] for the
    selected image, [change_wallpaper] returns [False] and never calls
    [mark_image_displayed]; the store is as candidate selection left it (reset
    if the flag was set on entry, untouched otherwise), and no record is
    created. *)
Theorem change_wallpaper_activation_failure e db f :
  CallSetWallpaper f ∈ trace (run_cycle e db).2 →
  set_wallpaper_hyprpaper (hypr e) f = false →
  (run_cycle e db).1 = Some false
  ∧ (∀ g, CallMark g ∉ trace (run_cycle e db).2)
  ∧ store_after e db
    = (if all_shown db then reset_rotation (now_select e) db else db)
  ∧ (all_shown db = false → store_after e db = db)
  ∧ dom (wallpaper_history (store_after e db)) = dom (wallpaper_history db).
Proof.
  intros Hcall Hfail. unfold store_after.
  destruct (run_cycle_selected e db f Hcall) as (pre & Hfree & ->).
  rewrite Hfail. simpl. split_and!.
  - reflexivity.
  - intros g Hg. trace_mem Hg. free_contra Hfree Hg.
  - reflexivity.
  - intros ->. reflexivity.
  - destruct (all_shown db); [|reflexivity]. simpl. apply dom_fmap_L.
Qed.

Lemma change_wallpaper_activation_failure_witness :
  (run_cycle preload_fails_env fresh_store).1 = Some false
  ∧ store_after preload_fails_env fresh_store = fresh_store.
Proof.
  assert (H1 : CallSetWallpaper "a.png"
               ∈ trace (run_cycle preload_fails_env fresh_store).2)
    by (apply (bool_decide_unpack _); vm_compute; reflexivity).
  assert (H2 : set_wallpaper_hyprpaper (hypr preload_fails_env) "a.png" = false)
    by reflexivity.
  destruct (change_wallpaper_activation_failure preload_fails_env fresh_store
              "a.png" H1 H2) as (Hres & _ & _ & Hsame & _).
  split; [exact Hres | apply Hsame; reflexivity].
Defined.

(** C4 as stated fails: the flag is set on entry, selection resets the
    store, the preload of [a.png] is refused and the cycle returns [False];
    the record of [a.png] has gone from [display_count] 1 to 0 and the flag
    from set to clear. *)
Lemma change_wallpaper_failure_after_reset :
  CallSetWallpaper "a.png" ∈ trace (run_cycle preload_fails_env store_a_shown).2
  ∧ set_wallpaper_hyprpaper (hypr preload_fails_env) "a.png" = false
  ∧ (run_cycle preload_fails_env store_a_shown).1 = Some false
  ∧ wallpaper_history store_a_shown !! "a.png"
    = Some {| first_displayed_at := "t1"; last_displayed_at := "t1";
              display_count := 1 |}
  ∧ wallpaper_history (store_after preload_fails_env store_a_shown) !! "a.png"
    = Some {| first_displayed_at := "t1"; last_displayed_at := "t1";
              display_count := 0 |}
  ∧ all_shown store_a_shown = true
  ∧ all_shown (store_after preload_fails_env store_a_shown) = false
  ∧ store_after preload_fails_env store_a_shown ≠ store_a_shown.
Proof.
  split_and!; try (vm_compute; reflexivity).
  - apply (bool_decide_unpack _). vm_compute. reflexivity.
  - intros Heq. apply (f_equal all_shown) in Heq. vm_compute in Heq.
    discriminate Heq.
Qed.

Lemma set_each_monitor_completes run k monitors :
  (∀ k monitor, run k monitor ≠ Raised) →
  set_each_monitor run k monitors = true.
Proof.
  intros Hrun. revert k.
  induction monitors as [|m ms IH]; intros k; [reflexivity|].
  simpl. specialize (Hrun k m).
  destruct (run k m); [done | apply IH].
Qed.

(** C8: when the preload returns 0 and every per-target call completes,
    whatever the return codes (so also when some targets fail and another
    succeeds), [set_wallpaper_hyprpaper] returns [True], the cycle succeeds
    and the display is recorded by [mark_image_displayed]. *)
Theorem change_wallpaper_partial_target_failure e db f out monitors :
  CallSetWallpaper f ∈ trace (run_cycle e db).2 →
  preload_run (hypr e) f = Completed 0 out →
  resolve_monitors (hypr e) = Some monitors →
  (∀ k monitor, wallpaper_run (hypr e) f k monitor ≠ Raised) →
  set_wallpaper_hyprpaper (hypr e) f = true
  ∧ (run_cycle e db).1 = Some true
  ∧ CallMark f ∈ trace (run_cycle e db).2
  ∧ store_after e db
    = mark_image_displayed (files_record e) (now_record e) f
        (get_unshown_images (files_select e) (now_select e) db).1.
Proof.
  intros Hcall Hpre Hres Hrun.
  assert (Hact : set_wallpaper_hyprpaper (hypr e) f = true).
  { unfold set_wallpaper_hyprpaper. rewrite Hpre, Hres. simpl.
    apply set_each_monitor_completes. exact Hrun. }
  split; [exact Hact|]. unfold store_after.
  destruct (run_cycle_selected e db f Hcall) as (pre & Hfree & ->).
  rewrite Hact. simpl. split_and!; [reflexivity| |reflexivity].
  apply elem_of_app. right. set_solver.
Qed.

Lemma change_wallpaper_partial_target_failure_witness :
  wallpaper_run (hypr one_target_fails_env) "a.png" 0 "DP-1" = Completed 0 EmptyString
  ∧ wallpaper_run (hypr one_target_fails_env) "a.png" 1 "HDMI-A-1"
    = Completed 1 EmptyString
  ∧ set_wallpaper_hyprpaper (hypr one_target_fails_env) "a.png" = true
  ∧ (run_cycle one_target_fails_env fresh_store).1 = Some true
  ∧ CallMark "a.png" ∈ trace (run_cycle one_target_fails_env fresh_store).2.
Proof.
  assert (H1 : CallSetWallpaper "a.png"
               ∈ trace (run_cycle one_target_fails_env fresh_store).2)
    by (apply (bool_decide_unpack _); vm_compute; reflexivity).
  assert (H2 : preload_run (hypr one_target_fails_env) "a.png"
               = Completed 0 "ok") by reflexivity.
  assert (H3 : resolve_monitors (hypr one_target_fails_env)
               = Some ["DP-1"; "HDMI-A-1"]) by reflexivity.
  assert (H4 : ∀ k monitor,
             wallpaper_run (hypr one_target_fails_env) "a.png" k monitor
             ≠ Raised) by (intros k monitor; simpl; discriminate).
  destruct (change_wallpaper_partial_target_failure one_target_fails_env
              fresh_store "a.png" "ok" ["DP-1"; "HDMI-A-1"] H1 H2 H3 H4)
    as (Hact & Hres & Hmark & _).
  split_and!; [reflexivity | reflexivity | exact Hact | exact Hres | exact Hmark].
Defined.

Lemma occurrences_app ev (l1 l2 : list Event) :
  occurrences ev (l1 ++ l2) = (occurrences ev l1 + occurrences ev l2)%nat.
Proof. unfold occurrences. rewrite filter_app, length_app. reflexivity. Qed.

Lemma occurrences_absent ev (l : list Event) :
  ev ∉ l → occurrences ev l = 0%nat.
Proof.
  intros Hl. unfold occurrences. induction l as [|x l IH]; [reflexivity|].
  apply not_elem_of_cons in Hl as [Hne Hl].
  rewrite filter_cons_False by congruence. apply IH. exact Hl.
Qed.

(** C7 (amended): when the first selection finds no candidate,
    [sync_images] is called exactly once; the candidates are computed once
    more exactly when that call returned [True].  If it returned [False], or
    the second selection is empty as well, the cycle logs
    "No images available even after sync" and returns [False], having picked,
    activated and recorded nothing, with the store as selection left it. *)
Theorem change_wallpaper_no_candidates e db :
  let s1 := get_unshown_images (files_select e) (now_select e) db in
  let s2 := get_unshown_images (files_retry e) (now_retry e) s1.1 in
  let tr := trace (run_cycle e db).2 in
  s1.2 = [] →
  occurrences CallSync tr = 1%nat
  ∧ occurrences CallGetUnshown tr = (if sync_ok e then 2%nat else 1%nat)
  ∧ ((sync_ok e = true → s2.2 = []) →
     display_free tr
     ∧ run_cycle e db
       = (Some false,
          {| store := s1.1;
             trace := [CallGetUnshown; Log WARNING "No unshown images available";
                       CallSync]
                      ++ (if sync_ok e then [CallGetUnshown] else [])
                      ++ [Log ERROR "No images available even after sync"] |})).
Proof.
  cbv zeta. intros Hempty. rewrite run_cycle_unfold. cbv zeta.
  rewrite get_unshown_images_again.
  rewrite (bool_decide_eq_true_2 _ Hempty).
  destruct (sync_ok e).
  - case_bool_decide as Hu2.
    + split_and!; [reflexivity..|]. intros _.
      split; [display_free_tac | reflexivity].
    + edestruct (display_one_of_run e) as (f & _ & _ & ->); [exact Hu2|].
      split_and!.
      * destruct (set_wallpaper_hyprpaper (hypr e) f); cbn [snd trace];
          rewrite occurrences_app;
          rewrite (occurrences_absent CallSync [CallChoice f; _; _])
            || rewrite (occurrences_absent CallSync [CallChoice f; _; _; _]);
          try reflexivity; intros H; trace_mem H.
      * destruct (set_wallpaper_hyprpaper (hypr e) f); cbn [snd trace];
          rewrite occurrences_app;
          rewrite (occurrences_absent CallGetUnshown [CallChoice f; _; _])
            || rewrite (occurrences_absent CallGetUnshown [CallChoice f; _; _; _]);
          try reflexivity; intros H; trace_mem H.
      * intros Hstill. destruct Hu2. apply Hstill. reflexivity.
  - split_and!; [reflexivity..|]. intros _.
    split; [display_free_tac | reflexivity].
Qed.

Lemma change_wallpaper_no_candidates_witness :
  run_cycle (steady_env [] true hypr_ok "t1") fresh_store
  = (Some false,
     {| store := fresh_store;
        trace := [CallGetUnshown; Log WARNING "No unshown images available";
                  CallSync; CallGetUnshown;
                  Log ERROR "No images available even after sync"] |}).
Proof.
  apply (change_wallpaper_no_candidates (steady_env [] true hypr_ok "t1")
           fresh_store); reflexivity.
Defined.

(** C7 as stated fails: [rsync] fails after [a.png] has arrived; the
    candidates are computed once, not twice, and the cycle fails although a
    second selection would have returned [a.png]. *)
Lemma change_wallpaper_failed_sync_skips_recompute :
  (get_unshown_images (files_select sync_failed_env)
     (now_select sync_failed_env) fresh_store).2 = []
  ∧ occurrences CallSync (trace (run_cycle sync_failed_env fresh_store).2) = 1%nat
  ∧ occurrences CallGetUnshown (trace (run_cycle sync_failed_env fresh_store).2)
    = 1%nat
  ∧ (get_unshown_images (files_retry sync_failed_env)
       (now_retry sync_failed_env) fresh_store).2 = ["a.png"]
  ∧ (run_cycle sync_failed_env fresh_store).1 = Some false.
Proof. split_and!; vm_compute; reflexivity. Qed.

(** ** The flag and the pool *)

Lemma every_pool_image_shown_subseteq files db :
  every_pool_image_shown files db ↔
  list_to_set (get_available_images files) ⊆ shown_filenames db.
Proof.
  unfold every_pool_image_shown. split.
  - intros H f Hf. apply elem_of_list_to_set in Hf.
    apply elem_of_shown_filenames. apply H. exact Hf.
  - intros H f Hf. apply elem_of_shown_filenames. apply H.
    apply elem_of_list_to_set. exact Hf.
Qed.

Lemma initialized_reset now db :
  initialized db → initialized (reset_rotation now db).
Proof. intros [st Hst]. unfold initialized. simpl. rewrite Hst. by eexists. Qed.

Create HintDb store discriminated.

#[local] Hint Resolve initialized_reset initialized_mark
  counts_nonneg_reset counts_nonneg_mark : store.

(** The invariant of a rotation over a pool that does not change. *)
Section FixedPool.

Variable files : list string.

Let pool : list string := get_available_images files.

Hypothesis pool_NoDup : NoDup pool.
Hypothesis pool_nonempty : pool ≠ [].

Lemma pool_not_in_empty : ¬ (list_to_set pool ⊆ (∅ : gset string)).
Proof.
  intros Hsub. destruct pool as [|f l]; [done|].
  apply (not_elem_of_empty (C:=gset string) f). apply Hsub.
  apply elem_of_list_to_set. left.
Qed.

Lemma size_pool : size (list_to_set pool : gset string) = length pool.
Proof. apply size_list_to_set. exact pool_NoDup. Qed.

Lemma rotation_invariant_fresh : rotation_invariant files fresh_store.
Proof.
  assert (Hnone : shown_filenames fresh_store = ∅).
  { apply set_eq. intros f. rewrite elem_of_shown_filenames. split.
    - intros (r & Hr & _). simpl in Hr. rewrite lookup_empty in Hr.
      discriminate Hr.
    - intros Hf. destruct (not_elem_of_empty (C:=gset string) f Hf). }
  split_and!.
  - eexists. reflexivity.
  - intros f r Hr. simpl in Hr. rewrite lookup_empty in Hr. discriminate Hr.
  - rewrite Hnone. apply empty_subseteq.
  - rewrite Hnone. split; [discriminate|]. intros Hsub.
    destruct (pool_not_in_empty Hsub).
Qed.

Lemma rotation_invariant_select files' now db :
  rotation_invariant files db →
  rotation_invariant files (get_unshown_images files' now db).1.
Proof.
  intros Hinv. rewrite get_unshown_images_store.
  destruct (all_shown db) eqn:Hflag; [|exact Hinv].
  destruct Hinv as (Hinit & _ & _ & _). split_and!; auto with store.
  - rewrite shown_filenames_reset. apply empty_subseteq.
  - rewrite all_shown_reset, shown_filenames_reset.
    split; [discriminate|]. intros Hsub.
    destruct (pool_not_in_empty Hsub).
Qed.

Lemma rotation_invariant_mark now f db :
  f ∈ pool →
  rotation_invariant files db →
  rotation_invariant files (mark_image_displayed files now f db).
Proof.
  intros Hf (Hinit & Hnn & Hsub & Hflag).
  assert (Hsub' : shown_filenames (mark_image_displayed files now f db)
                  ⊆ list_to_set pool).
  { rewrite shown_filenames_mark by exact Hnn.
    apply union_subseteq. split; [|exact Hsub].
    apply singleton_subseteq_l. apply elem_of_list_to_set. exact Hf. }
  split_and!; auto with store.
  rewrite all_shown_mark by exact Hinit.
  rewrite orb_true_iff, andb_true_iff, !bool_decide_eq_true.
  fold pool. rewrite <- size_pool. split.
  - intros [Hold|[Hsize _]].
    + apply Hflag in Hold. etrans; [exact Hold|].
      rewrite shown_filenames_mark by exact Hnn. apply union_subseteq_r.
    + rewrite (set_subseteq_size_eq _ _ Hsub' Hsize). reflexivity.
  - intros Hall. right. split.
    + apply subseteq_size. exact Hall.
    + rewrite size_pool. destruct pool; [done | simpl; lia].
Qed.

Lemma rotation_invariant_cycle e db :
  files_select e = files → files_retry e = files → files_record e = files →
  rotation_invariant files db →
  rotation_invariant files (store_after e db).
Proof.
  intros Hsel Hret Hrec Hinv. unfold store_after.
  destruct (run_cycle_outcome e db)
    as [(tr & -> & _)|(f & pre & Hf & _ & ->)].
  - cbn [snd store]. by apply rotation_invariant_select.
  - assert (Hin : f ∈ pool).
    { destruct Hf as [Hf|Hf]; apply elem_of_get_unshown_images in Hf;
        unfold pool; congruence. }
    destruct (set_wallpaper_hyprpaper (hypr e) f); cbn [snd store].
    + rewrite Hrec. apply rotation_invariant_mark; [exact Hin|].
      by apply rotation_invariant_select.
    + by apply rotation_invariant_select.
Qed.

Lemma reachable_fixed_invariant db :
  reachable_fixed files db → rotation_invariant files db.
Proof.
  induction 1 as [|now db _ IH|now f db _ IH Hf|e db _ IH Hsel Hret Hrec].
  - apply rotation_invariant_fresh.
  - by apply rotation_invariant_select.
  - by apply rotation_invariant_mark.
  - by apply rotation_invariant_cycle.
Qed.

End FixedPool.

(** C1 (amended): while the directory stays as it is and its pool is not
    empty, in every store reached from a new installation by
    [get_unshown_images], by [mark_image_displayed] on pool filenames and by
    whole cycles, the flag is set exactly when every pool image has a record
    with [display_count > 0]. *)
Theorem flag_agrees_fixed_pool files db :
  NoDup files →
  get_available_images files ≠ [] →
  reachable_fixed files db →
  flag_agrees files db.
Proof.
  intros Hnodup Hne Hreach. unfold flag_agrees.
  rewrite every_pool_image_shown_subseteq.
  apply (reachable_fixed_invariant files); [|exact Hne|exact Hreach].
  apply NoDup_get_available_images. exact Hnodup.
Qed.

Lemma flag_agrees_fixed_pool_witness : flag_agrees ["a.png"] store_a_shown.
Proof.
  apply flag_agrees_fixed_pool.
  - apply (bool_decide_unpack _). vm_compute. reflexivity.
  - vm_compute. discriminate.
  - apply (reachf_cycle ["a.png"] (steady_env ["a.png"] true hypr_ok "t1")
             fresh_store); [apply reachf_init | reflexivity..].
Defined.

(** C1 as stated fails: [a.png], the only image, has been displayed and the
    flag is set; [rsync] then brings [b.png].  The flag stays set although
    [b.png] has no record. *)
Lemma flag_stale_after_new_image :
  reachable ["a.png"; "b.png"] store_a_shown
  ∧ all_shown store_a_shown = true
  ∧ "b.png" ∈ get_available_images ["a.png"; "b.png"]
  ∧ wallpaper_history store_a_shown !! "b.png" = None
  ∧ ¬ flag_agrees ["a.png"; "b.png"] store_a_shown.
Proof.
  assert (Hb : "b.png" ∈ get_available_images ["a.png"; "b.png"])
    by (apply (bool_decide_unpack _); vm_compute; reflexivity).
  split_and!.
  - apply (reach_directory ["a.png"]).
    apply (reach_cycle (steady_env ["a.png"] true hypr_ok "t1") fresh_store).
    apply reach_init.
  - vm_compute. reflexivity.
  - exact Hb.
  - vm_compute. reflexivity.
  - intros [Hshown _].
    destruct (Hshown ltac:(vm_compute; reflexivity) "b.png" Hb) as (r & Hr & _).
    vm_compute in Hr. discriminate Hr.
Qed.

(** With an empty pool the flag is never set, although no pool image is
    left to show. *)
Lemma flag_clear_on_empty_pool :
  reachable [] fresh_store ∧ all_shown fresh_store = false
  ∧ every_pool_image_shown [] fresh_store.
Proof.
  split_and!; [apply reach_init | reflexivity |].
  intros f Hf. vm_compute in Hf. inversion Hf.
Qed.

(** * Further properties *)

(** ** The pool, by suffix *)

Lemma append_cons c (s t : string) : String c s +:+ t = String c (s +:+ t).
Proof. reflexivity. Qed.

Lemma append_nil_r (s : string) : s +:+ EmptyString = s.
Proof.
  induction s as [|c s IH]; [reflexivity|]. by rewrite append_cons, IH.
Qed.

Lemma append_assoc (a b c : string) : (a +:+ b) +:+ c = a +:+ (b +:+ c).
Proof.
  induction a as [|x a IH]; [reflexivity|]. by rewrite !append_cons, IH.
Qed.

Lemma rev_app_append (s acc : string) :
  String.rev_app s acc = String.rev s +:+ acc.
Proof.
  unfold String.rev. revert acc.
  induction s as [|c s IH]; intros acc; simpl; [reflexivity|].
  rewrite (IH (String c acc)), (IH (String c EmptyString)), append_assoc.
  reflexivity.
Qed.

Lemma rev_append (a b : string) :
  String.rev (a +:+ b) = String.rev b +:+ String.rev a.
Proof.
  induction a as [|c a IH].
  - change (EmptyString +:+ b) with b. by rewrite append_nil_r.
  - rewrite append_cons. unfold String.rev at 1 3. simpl.
    rewrite !rev_app_append, IH, append_assoc. reflexivity.
Qed.

Lemma rev_involutive (s : string) : String.rev (String.rev s) = s.
Proof.
  induction s as [|c s IH]; [reflexivity|].
  unfold String.rev at 2. simpl. rewrite rev_app_append, rev_append, IH.
  reflexivity.
Qed.

Lemma prefix_append (p s : string) :
  String.prefix p s = true ↔ ∃ t, s = p +:+ t.
Proof.
  revert s. induction p as [|c p IH]; intros s.
  - split; [intros _; exists s; reflexivity | intros _; by destruct s].
  - destruct s as [|d s]; simpl.
    + split; [discriminate | intros [t Ht]; discriminate Ht].
    + destruct (ascii_dec c d) as [->|Hne].
      * rewrite IH. split; intros [t Ht]; exists t;
          rewrite ?append_cons in *; congruence.
      * split; [discriminate|]. intros [t Ht].
        rewrite append_cons in Ht. congruence.
Qed.

(** A name matches the pattern of [ext] exactly when it ends in [ext]. *)
Lemma glob_match_suffix (ext name : string) :
  glob_match ext name = true ↔ ∃ stem, name = stem +:+ ext.
Proof.
  unfold glob_match. rewrite prefix_append. split.
  - intros [t Ht]. exists (String.rev t).
    rewrite <- (rev_involutive name), Ht, rev_append, rev_involutive.
    reflexivity.
  - intros [stem ->]. exists (String.rev stem). apply rev_append.
Qed.

(** X1: [get_available_images] returns exactly the directory entries whose
    name ends in [.png], [.jpg], [.jpeg], [.jxl] or [.webp] (in that
    spelling), each of them once when the entries are distinct, in no more
    entries than the directory has. *)
Theorem get_available_images_by_suffix files :
  (∀ name, name ∈ get_available_images files ↔
           name ∈ files ∧ ∃ stem ext, ext ∈ extensions ∧ name = stem +:+ ext)
  ∧ (NoDup files →
     NoDup (get_available_images files)
     ∧ (length (get_available_images files) ≤ length files)%nat).
Proof.
  assert (Hmem : ∀ name, name ∈ get_available_images files ↔
    name ∈ files ∧ ∃ stem ext, ext ∈ extensions ∧ name = stem +:+ ext).
  { intros name. rewrite elem_of_get_available_images. split.
    - intros [Hin (ext & Hext & Hm)]. split; [exact Hin|].
      apply glob_match_suffix in Hm as [stem ->]. by exists stem, ext.
    - intros [Hin (stem & ext & Hext & ->)]. split; [exact Hin|].
      exists ext. split; [exact Hext|]. apply glob_match_suffix. by exists stem. }
  split; [exact Hmem|]. intros Hnodup.
  pose proof (NoDup_get_available_images files Hnodup) as Hpool.
  split; [exact Hpool|].
  apply submseteq_length, NoDup_submseteq; [exact Hpool|].
  intros name Hname. by apply Hmem in Hname as [Hin _].
Qed.

(** ** The store operations *)

(** X2: [init_database] on a store that already has its [rotation_state] row
    changes nothing, so a restart keeps the history, the flag and
    [last_reset_at]; run twice it does what it does once, and it always
    leaves the row in place. *)
Theorem init_database_idempotent db :
  init_database (init_database db) = init_database db
  ∧ initialized (init_database db)
  ∧ wallpaper_history (init_database db) = wallpaper_history db
  ∧ all_shown (init_database db) = all_shown db
  ∧ (initialized db → init_database db = db).
Proof.
  destruct db as [h [st|]]; unfold init_database, initialized, all_shown; simpl.
  - split_and!; try reflexivity. by eexists.
  - split_and!; try reflexivity; [by eexists|]. intros [st Hst]. discriminate Hst.
Qed.

(** X3: whatever the store, [get_unshown_images] leaves the flag clear,
    adds and removes no record and keeps both timestamps of each; with the
    flag clear on entry it does not write at all. *)
Theorem get_unshown_images_effects files now db :
  let db' := (get_unshown_images files now db).1 in
  all_shown db' = false
  ∧ dom (wallpaper_history db') = dom (wallpaper_history db)
  ∧ (∀ f r', wallpaper_history db' !! f = Some r' →
       ∃ r, wallpaper_history db !! f = Some r
            ∧ first_displayed_at r' = first_displayed_at r
            ∧ last_displayed_at r' = last_displayed_at r
            ∧ (display_count r' = display_count r ∨ display_count r' = 0))
  ∧ (all_shown db = false → db' = db).
Proof.
  cbv zeta. rewrite get_unshown_images_store.
  destruct (all_shown db) eqn:Hflag.
  - split_and!.
    + apply all_shown_reset.
    + simpl. apply dom_fmap_L.
    + intros f r'. rewrite lookup_reset_rotation.
      destruct (wallpaper_history db !! f) as [r|]; [|discriminate].
      intros [= <-]. exists r. simpl. auto.
    + discriminate.
  - split_and!; [exact Hflag | reflexivity | | reflexivity].
    intros f r' Hr'. exists r'. auto.
Qed.

(** X4: the candidates come in the order of the pool, none twice when the
    directory entries are distinct, and a pool image of which the store has
    no record is always among them. *)
Theorem get_unshown_images_candidates files now db :
  let unshown := (get_unshown_images files now db).2 in
  unshown `sublist_of` get_available_images files
  ∧ (length unshown ≤ length (get_available_images files))%nat
  ∧ (NoDup files → NoDup unshown)
  ∧ (∀ f, f ∈ get_available_images files →
          wallpaper_history db !! f = None → f ∈ unshown).
Proof.
  cbv zeta. unfold get_unshown_images. cbn [snd]. split_and!.
  - apply sublist_filter.
  - apply length_filter.
  - intros Hnodup. apply NoDup_filter, NoDup_get_available_images, Hnodup.
  - intros f Hf Hnone. apply list_elem_of_filter. split; [|exact Hf].
    rewrite elem_of_shown_filenames. intros (r & Hr & _).
    destruct (all_shown db); [|congruence].
    rewrite lookup_reset_rotation, Hnone in Hr. discriminate Hr.
Qed.

(** X5: [mark_image_displayed] touches the record of its filename only: the
    other records stay as they are, no record goes away, [last_reset_at] is
    kept, and a flag that is set stays set. *)
Theorem mark_image_displayed_frame files now f db :
  let db' := mark_image_displayed files now f db in
  (∀ g, g ≠ f → wallpaper_history db' !! g = wallpaper_history db !! g)
  ∧ dom (wallpaper_history db') = {[f]} ∪ dom (wallpaper_history db)
  ∧ last_reset_at <$> rotation_state db' = last_reset_at <$> rotation_state db
  ∧ (all_shown db = true → all_shown db' = true).
Proof.
  cbv zeta. split_and!.
  - intros g Hg. rewrite wallpaper_history_mark, lookup_upsert.
    case_decide; [congruence | reflexivity].
  - rewrite wallpaper_history_mark. unfold upsert.
    destruct (wallpaper_history db !! f); apply dom_insert_L.
  - rewrite rotation_state_mark.
    destruct (_ && _); [|reflexivity]. by destruct (rotation_state db).
  - unfold all_shown. rewrite rotation_state_mark.
    destruct (rotation_state db) as [st|]; [|discriminate].
    intros Hflag. destruct (_ && _); simpl; [reflexivity | exact Hflag].
Qed.

(** X6: [mark_image_displayed] does not write the flag when the pool is
    empty, nor when [rotation_state] has no row; when it leaves the flag
    set, either the flag was set before or the store holds at least as many
    shown records as the (non-empty) pool has images. *)
Theorem mark_image_displayed_flag_guard files now f db :
  let db' := mark_image_displayed files now f db in
  (get_available_images files = [] → rotation_state db' = rotation_state db)
  ∧ (rotation_state db = None → rotation_state db' = None)
  ∧ (all_shown db' = true →
     all_shown db = true
     ∨ (0 < length (get_available_images files) ≤ size (shown_filenames db'))%nat).
Proof.
  cbv zeta. split_and!.
  - intros Hnil. rewrite rotation_state_mark, Hnil. cbn [length].
    rewrite (bool_decide_eq_false_2 (0 < 0)%nat) by lia.
    rewrite andb_false_r. reflexivity.
  - intros Hnone. rewrite rotation_state_mark, Hnone.
    by destruct (_ && _).
  - unfold all_shown at 1 2. rewrite rotation_state_mark.
    destruct (_ && _) eqn:Hcond; [|by left].
    intros _. right. apply andb_true_iff in Hcond as [H1 H2].
    apply bool_decide_eq_true in H1, H2. lia.
Qed.



Lemma first_displayed_at_mark files now g db f r :
  wallpaper_history db !! f = Some r →
  ∃ r', wallpaper_history (mark_image_displayed files now g db) !! f = Some r'
        ∧ first_displayed_at r' = first_displayed_at r.
Proof.
  intros Hr. rewrite wallpaper_history_mark, lookup_upsert.
  case_decide as Hgf.
  - subst g. rewrite Hr. eexists. split; reflexivity.
  - exists r. split; [exact Hr | reflexivity].
Qed.


(** X8: the exhaustion test of [mark_image_displayed] counts shown records,
    whether or not their files are still in the directory: as soon as the
    marked filename and the records already shown are at least as many as
    the pool has images, the flag is set. *)
Theorem mark_image_displayed_counts_records files now f db :
  initialized db → counts_nonneg db →
  (0 < length (get_available_images files)
   ≤ size ({[f]} ∪ shown_filenames db))%nat →
  all_shown (mark_image_displayed files now f db) = true.
Proof.
  intros Hinit Hnn [Hpos Hsize].
  rewrite all_shown_mark by exact Hinit.
  rewrite shown_filenames_mark by exact Hnn.
  rewrite !bool_decide_eq_true_2 by assumption. apply orb_true_r.
Qed.

Lemma mark_image_displayed_counts_records_witness :
  all_shown (mark_image_displayed ["b.png"; "c.png"] "t2" "b.png" store_c_stale)
  = true
  ∧ "c.png" ∈ get_available_images ["b.png"; "c.png"]
  ∧ wallpaper_history
      (mark_image_displayed ["b.png"; "c.png"] "t2" "b.png" store_c_stale)
    !! "c.png" = None.
Proof.
  split_and!.
  - apply mark_image_displayed_counts_records.
    + apply (bool_decide_unpack _). vm_compute. reflexivity.
    + apply (bool_decide_unpack _). vm_compute. reflexivity.
    + apply (bool_decide_unpack _). vm_compute. reflexivity.
  - apply (bool_decide_unpack _). vm_compute. reflexivity.
  - vm_compute. reflexivity.
Defined.

Lemma set_each_monitor_all_complete run k monitors :
  set_each_monitor run k monitors = true ↔ all_complete run k monitors.
Proof.
  revert k. induction monitors as [|m ms IH]; intros k; simpl; [done|].
  destruct (run k m) eqn:Hrun.
  - split; [discriminate | intros [H _]; congruence].
  - rewrite IH. split; [intros H; split; [discriminate | exact H] | tauto].
Qed.

(** X9: [set_wallpaper_hyprpaper] returns [True] exactly when the preload
    exits with 0, the target list is resolved without an exception, and
    none of the per-target calls raises; the return codes of the per-target
    calls play no part. *)
Theorem set_wallpaper_hyprpaper_true_iff h image :
  set_wallpaper_hyprpaper h image = true ↔
  (∃ out, preload_run h image = Completed 0 out)
  ∧ ∃ monitors, resolve_monitors h = Some monitors
                ∧ all_complete (wallpaper_run h image) 0 monitors.
Proof.
  unfold set_wallpaper_hyprpaper.
  destruct (preload_run h image) as [|rc out].
  - split; [discriminate | intros [[out Hout] _]; discriminate Hout].
  - case_bool_decide as Hrc.
    + split; [discriminate | intros [[out' Hout] _]; congruence].
    + assert (rc = 0) as -> by lia.
      destruct (resolve_monitors h) as [monitors|].
      * rewrite set_each_monitor_all_complete. split.
        -- intros H. split; [by exists out|]. by exists monitors.
        -- intros [_ (ms & [= <-] & H)]. exact H.
      * split; [discriminate | intros [_ (ms & Hms & _)]; discriminate Hms].
Qed.

(** ** What a cycle does *)

Lemma marked_app (l1 l2 : list Event) : marked (l1 ++ l2) = (marked l1 ++ marked l2)%list.
Proof. unfold marked. apply omap_app. Qed.

Lemma marked_display_free pre : display_free pre → marked pre = [].
Proof.
  intros Hfree. induction pre as [|ev pre IH]; [reflexivity|].
  assert (Hpre : display_free pre).
  { intros g. destruct (Hfree g) as (H1 & H2 & H3).
    split_and!; intros H; [apply H1|apply H2|apply H3]; by right. }
  destruct ev as [| |g|g|g|lvl msg]; simpl; try (apply IH; exact Hpre).
  destruct (Hfree g) as (_ & _ & H3). destruct H3. left.
Qed.

Lemma unshown_not_shown files now db f :
  f ∈ (get_unshown_images files now db).2 →
  f ∉ shown_filenames (get_unshown_images files now db).1.
Proof. intros Hf. by apply list_elem_of_filter in Hf as [Hf _]. Qed.

(** What a cycle does, down to its store, its result and the filenames it
    records: nothing beyond candidate selection, or the display of one
    candidate [f] that was not shown. *)
Lemma run_cycle_summary e db :
  let s1 := (get_unshown_images (files_select e) (now_select e) db).1 in
  ((run_cycle e db).1 = Some false ∧ store_after e db = s1
   ∧ marked (trace (run_cycle e db).2) = []
   ∧ display_free (trace (run_cycle e db).2))
  ∨ (∃ f,
       (f ∈ get_available_images (files_select e)
        ∨ f ∈ get_available_images (files_retry e))
       ∧ (f ∉ shown_filenames s1)
       ∧ (∀ g, CallSetWallpaper g ∈ trace (run_cycle e db).2 → g = f)
       ∧ if set_wallpaper_hyprpaper (hypr e) f then
           (run_cycle e db).1 = Some true
           ∧ store_after e db
             = mark_image_displayed (files_record e) (now_record e) f s1
           ∧ marked (trace (run_cycle e db).2) = [f]
         else
           (run_cycle e db).1 = Some false ∧ store_after e db = s1
           ∧ marked (trace (run_cycle e db).2) = []).
Proof.
  cbv zeta. unfold store_after.
  destruct (run_cycle_outcome e db)
    as [(tr & -> & Hfree)|(f & pre & Hf & Hfree & ->)].
  - left. cbn [fst snd store trace].
    split_and!; [reflexivity..| |exact Hfree]. by apply marked_display_free.
  - right. exists f. split_and!.
    + destruct Hf as [Hf|Hf]; apply elem_of_get_unshown_images in Hf; auto.
    + destruct Hf as [Hf|Hf]; apply unshown_not_shown in Hf.
      * exact Hf.
      * rewrite get_unshown_images_again in Hf. exact Hf.
    + intros g Hg.
      destruct (set_wallpaper_hyprpaper (hypr e) f); cbn [snd trace] in Hg;
        trace_mem Hg; first [free_contra Hfree Hg | congruence].
    + destruct (set_wallpaper_hyprpaper (hypr e) f); cbn [fst snd store trace];
        rewrite marked_app, (marked_display_free pre Hfree);
        split_and!; reflexivity.
Qed.


(** X11: the image [change_wallpaper] hands to hyprpaper is an image of the
    directory, as listed at the first or at the second selection, that is not
    shown in the store as selection left it: its record, if it has one, has
    no positive [display_count]. *)
Theorem change_wallpaper_selects_unshown e db f :
  CallSetWallpaper f ∈ trace (run_cycle e db).2 →
  (f ∈ get_available_images (files_select e)
   ∨ f ∈ get_available_images (files_retry e))
  ∧ ∀ r, wallpaper_history
           (get_unshown_images (files_select e) (now_select e) db).1 !! f
         = Some r →
         (display_count r ≤ 0)%Z.
Proof.
  intros Hcall.
  destruct (run_cycle_summary e db)
    as [(_ & _ & _ & Hfree)|(f' & Hpool & Hfresh & Hsel & _)].
  - free_contra Hfree Hcall.
  - apply Hsel in Hcall as ->. split; [exact Hpool|].
    intros r Hr. destruct (decide (0 < display_count r)) as [Hpos|]; [|lia].
    destruct Hfresh. apply elem_of_shown_filenames. by exists r.
Qed.

Lemma change_wallpaper_selects_unshown_witness :
  "a.png" ∈ get_available_images ["a.png"]
  ∨ "a.png" ∈ get_available_images ["a.png"].
Proof.
  apply (change_wallpaper_selects_unshown
           (steady_env ["a.png"] true hypr_ok "t1") fresh_store "a.png").
  apply (bool_decide_unpack _). vm_compute. reflexivity.
Defined.

Lemma dom_get_unshown_images files now db :
  dom (wallpaper_history (get_unshown_images files now db).1)
  = dom (wallpaper_history db).
Proof.
  rewrite get_unshown_images_store.
  destruct (all_shown db); [simpl; apply dom_fmap_L | reflexivity].
Qed.

Lemma first_displayed_at_get_unshown_images files now db f r :
  wallpaper_history db !! f = Some r →
  ∃ r', wallpaper_history (get_unshown_images files now db).1 !! f = Some r'
        ∧ first_displayed_at r' = first_displayed_at r.
Proof.
  intros Hr. rewrite get_unshown_images_store.
  destruct (all_shown db); [|by exists r].
  rewrite lookup_reset_rotation, Hr. by eexists.
Qed.

(** X12: a cycle deletes no record and adds at most one; the
    [first_displayed_at] of a record, once written, is never changed. *)
Theorem change_wallpaper_keeps_records e db :
  dom (wallpaper_history db) ⊆ dom (wallpaper_history (store_after e db))
  ∧ (size (dom (wallpaper_history (store_after e db)))
     ≤ S (size (dom (wallpaper_history db))))%nat
  ∧ ∀ g r, wallpaper_history db !! g = Some r →
      ∃ r', wallpaper_history (store_after e db) !! g = Some r'
            ∧ first_displayed_at r' = first_displayed_at r.
Proof.
  set (s1 := (get_unshown_images (files_select e) (now_select e) db).1).
  assert (Hdom : dom (wallpaper_history s1) = dom (wallpaper_history db))
    by apply dom_get_unshown_images.
  assert (Hfirst : ∀ g r, wallpaper_history db !! g = Some r →
            ∃ r', wallpaper_history s1 !! g = Some r'
                  ∧ first_displayed_at r' = first_displayed_at r)
    by (intros g r; apply first_displayed_at_get_unshown_images).
  assert (Hcases : store_after e db = s1
            ∨ ∃ f, store_after e db
                   = mark_image_displayed (files_record e) (now_record e) f s1).
  { destruct (run_cycle_summary e db)
      as [(_ & Hs & _)|(f & _ & _ & _ & Hcase)]; [by left|].
    destruct (set_wallpaper_hyprpaper (hypr e) f);
      destruct Hcase as (_ & Hs & _); [right; by exists f | by left]. }
  destruct Hcases as [->|[f ->]].
  - rewrite Hdom. split_and!; [done | lia | exact Hfirst].
  - assert (Hd : dom (wallpaper_history
                   (mark_image_displayed (files_record e) (now_record e) f s1))
                 = {[f]} ∪ dom (wallpaper_history db)).
    { rewrite wallpaper_history_mark, <- Hdom. unfold upsert.
      destruct (wallpaper_history s1 !! f); apply dom_insert_L. }
    rewrite Hd. split_and!.
    + apply union_subseteq_r.
    + rewrite size_union_alt, size_singleton.
      assert (Hle : (size (dom (wallpaper_history db) ∖ {[f]})
                     ≤ size (dom (wallpaper_history db)))%nat).
      { apply subseteq_size. intros x Hx. by apply elem_of_difference in Hx as [Hx _]. }
      lia.
    + intros g r Hr. destruct (Hfirst g r Hr) as (r1 & Hr1 & Hf1).
      destruct (first_displayed_at_mark (files_record e) (now_record e) f s1 g r1 Hr1)
        as (r' & Hr' & Hf'). exists r'. split; [exact Hr' | congruence].
Qed.

Lemma counts_01_nonneg db : counts_01 db → counts_nonneg db.
Proof. intros H f r Hr. destruct (H f r Hr) as [H0|H1]; simpl in *; lia. Qed.

Lemma counts_01_get_unshown_images files now db :
  counts_01 db → counts_01 (get_unshown_images files now db).1.
Proof.
  intros H. rewrite get_unshown_images_store.
  destruct (all_shown db); [|exact H].
  intros f r. rewrite lookup_reset_rotation.
  destruct (wallpaper_history db !! f); intros; simplify_eq/=. by left.
Qed.

Lemma counts_01_mark files now f db :
  counts_01 db → f ∉ shown_filenames db →
  counts_01 (mark_image_displayed files now f db).
Proof.
  intros H Hfresh g r. rewrite wallpaper_history_mark, lookup_upsert.
  case_decide as Hfg; [|apply H]. subst g.
  destruct (wallpaper_history db !! f) as [r0|] eqn:Hr0; intros [= <-]; simpl.
  - right. destruct (H f r0 Hr0) as [H0|H1]; simpl in *; [lia|].
    destruct Hfresh. apply elem_of_shown_filenames. exists r0.
    split; [exact Hr0 | lia].
  - by right.
Qed.

Lemma initialized_get_unshown_images files now db :
  initialized db → initialized (get_unshown_images files now db).1.
Proof.
  intros H. rewrite get_unshown_images_store.
  destruct (all_shown db); [by apply initialized_reset | exact H].
Qed.

Lemma store_after_invariant e db :
  initialized db → counts_01 db →
  initialized (store_after e db) ∧ counts_01 (store_after e db).
Proof.
  intros Hinit H01.
  pose proof (initialized_get_unshown_images (files_select e) (now_select e) db Hinit) as Hinit1.
  pose proof (counts_01_get_unshown_images (files_select e) (now_select e) db H01) as H011.
  destruct (run_cycle_summary e db)
    as [(_ & -> & _)|(f & _ & Hfresh & _ & Hcase)]; [by split|].
  destruct (set_wallpaper_hyprpaper (hypr e) f);
    destruct Hcase as (_ & -> & _); [|by split].
  split; [by apply initialized_mark | by apply counts_01_mark].
Qed.

(** X13: in every store the program reaches from a new installation,
    whatever happens to the directory and whatever the environment answers,
    the [rotation_state] row exists and every [display_count] is 0 or 1: an
    image is recorded at most once between two resets. *)
Theorem reachable_counts_01 files db :
  reachable files db →
  initialized db
  ∧ ∀ f r, wallpaper_history db !! f = Some r →
           display_count r = 0 ∨ display_count r = 1.
Proof.
  induction 1 as [files|files files' db _ IH|e db _ IH].
  - split; [by eexists|]. intros f r Hr. simpl in Hr.
    rewrite lookup_empty in Hr. discriminate Hr.
  - exact IH.
  - destruct IH as [Hinit H01]. by apply store_after_invariant.
Qed.

Lemma reachable_counts_01_witness :
  reachable ["a.png"] store_a_shown ∧ initialized store_a_shown.
Proof.
  assert (Hreach : reachable ["a.png"] store_a_shown).
  { apply (reach_cycle (steady_env ["a.png"] true hypr_ok "t1") fresh_store).
    apply reach_init. }
  split; [exact Hreach|].
  apply (reachable_counts_01 ["a.png"] store_a_shown Hreach).
Defined.

(** ** The daemon *)

Lemma trace_extending_ret {A} (a : A) : trace_extending (mret a).
Proof. intros [db tr]. unfold mret, M_ret. simpl. by rewrite app_nil_r. Qed.

Lemma trace_extending_bind {A B} (m : M A) (k : A → M B) :
  trace_extending m → (∀ a, trace_extending (k a)) →
  trace_extending (m ≫= k).
Proof.
  intros Hm Hk w. unfold mbind, M_bind.
  rewrite (Hm w).
  destruct (m {| store := store w; trace := [] |}) as [a [s1 t1]] eqn:Hm0.
  cbn [fst snd store trace].
  rewrite (Hk a {| store := s1; trace := trace w ++ t1 |}).
  rewrite (Hk a {| store := s1; trace := t1 |}).
  cbn [fst snd store trace].
  destruct (k a {| store := s1; trace := [] |}) as [b [s2 t2]].
  cbn [fst snd store trace]. by rewrite app_assoc.
Qed.

Lemma trace_extending_emit ev : trace_extending (emit ev).
Proof. intros [db tr]. reflexivity. Qed.

Lemma trace_extending_get_unshown files now :
  trace_extending (call_get_unshown_images files now).
Proof.
  intros [db tr]. unfold call_get_unshown_images. cbn [store trace].
  by destruct (get_unshown_images files now db).
Qed.

Lemma trace_extending_mark files now f :
  trace_extending (call_mark_image_displayed files now f).
Proof. intros [db tr]. reflexivity. Qed.

Lemma trace_extending_sync e : trace_extending (call_sync_images e).
Proof.
  unfold call_sync_images.
  apply trace_extending_bind; [apply trace_extending_emit|].
  intros _. apply trace_extending_ret.
Qed.

Lemma trace_extending_set_wallpaper e image :
  trace_extending (call_set_wallpaper_hyprpaper e image).
Proof.
  unfold call_set_wallpaper_hyprpaper.
  apply trace_extending_bind; [apply trace_extending_emit|].
  intros _. apply trace_extending_ret.
Qed.

Create HintDb trace_ext discriminated.

#[local] Hint Resolve trace_extending_ret trace_extending_emit
  trace_extending_get_unshown trace_extending_mark trace_extending_sync
  trace_extending_set_wallpaper : trace_ext.

Ltac trace_ext :=
  repeat first
    [ progress auto with trace_ext
    | apply trace_extending_bind; [|intros ?]
    | match goal with
      | |- trace_extending (if ?b then _ else _) => destruct b
      | |- trace_extending (match ?x with _ => _ end) => destruct x
      end ].

Lemma trace_extending_display_one_of e l :
  trace_extending (display_one_of e l).
Proof. unfold display_one_of. trace_ext. Qed.

Lemma trace_extending_change_wallpaper e :
  trace_extending (change_wallpaper e).
Proof.
  unfold change_wallpaper.
  pose proof (trace_extending_display_one_of e) as Hd.
  trace_ext.
Qed.

Lemma run_cycle_is_Some e db : is_Some (run_cycle e db).1.
Proof.
  destruct (run_cycle_summary e db) as [(-> & _)|(f & _ & _ & _ & Hcase)];
    [by eexists|].
  destruct (set_wallpaper_hyprpaper (hypr e) f);
    destruct Hcase as (-> & _); by eexists.
Qed.

Lemma run_once_spec e w :
  run_once e w
  = (Some tt,
     {| store := store_after e (store w);
        trace := trace w ++ CallSync :: trace (run_cycle e (store w)).2 |}).
Proof.
  unfold run_once, mbind, M_bind, emit. cbn [store trace].
  rewrite (trace_extending_change_wallpaper e).
  cbn [fst snd store trace]. fold (run_cycle e (store w)).
  destruct (run_cycle_is_Some e (store w)) as [b Hb].
  unfold store_after. rewrite Hb. unfold mret, M_ret. simpl.
  by rewrite <- app_assoc.
Qed.

Lemma sync_at_most_once e db :
  (occurrences CallSync (trace (run_cycle e db).2) ≤ 1)%nat.
Proof.
  assert (Hdisp : ∀ l pre, l ≠ [] →
    occurrences CallSync
      (trace (display_one_of e l
                {| store := (get_unshown_images (files_select e) (now_select e) db).1;
                   trace := pre |}).2)
    = occurrences CallSync pre).
  { intros l pre Hl.
    edestruct (display_one_of_run e l) as (f & _ & _ & ->); [exact Hl|].
    destruct (set_wallpaper_hyprpaper (hypr e) f); cbn [snd trace];
      rewrite occurrences_app,
        (occurrences_absent CallSync (CallChoice f :: _)); try lia;
      intros H; trace_mem H. }
  rewrite run_cycle_unfold. cbv zeta. rewrite get_unshown_images_again.
  case_bool_decide as Hu1.
  - destruct (sync_ok e).
    + case_bool_decide as Hu2.
      * cbn [snd trace]. vm_compute. lia.
      * rewrite Hdisp by exact Hu2. vm_compute. lia.
    + cbn [snd trace]. vm_compute. lia.
  - rewrite Hdisp by exact Hu1. vm_compute. lia.
Qed.

Lemma cycles_cons e es db : cycles (e :: es) db = cycles es (store_after e db).
Proof. reflexivity. Qed.

Lemma occurrences_cons_sync tr :
  occurrences CallSync (CallSync :: tr) = S (occurrences CallSync tr).
Proof. unfold occurrences. by rewrite filter_cons_True. Qed.

Lemma run_loop_spec es w :
  ∃ tr,
    run_loop es w
    = (Some tt, {| store := cycles es (store w); trace := trace w ++ tr |})
    ∧ marked tr = cycle_marks es (store w)
    ∧ (length es ≤ occurrences CallSync tr ≤ 2 * length es)%nat.
Proof.
  revert w. induction es as [|e es IH]; intros w.
  - exists []. destruct w as [db tr]. unfold mret, M_ret. simpl.
    rewrite app_nil_r. split_and!; [reflexivity | reflexivity | | ];
      vm_compute; lia.
  - cbn [run_loop]. unfold mbind, M_bind. rewrite run_once_spec.
    destruct (IH {| store := store_after e (store w);
                    trace := trace w ++ CallSync :: trace (run_cycle e (store w)).2 |})
      as (tr & Hrun & Hmarks & Hlo & Hhi).
    rewrite Hrun. cbn [store trace].
    exists (CallSync :: trace (run_cycle e (store w)).2 ++ tr).
    pose proof (sync_at_most_once e (store w)) as Hsync.
    split_and!.
    + rewrite cycles_cons. f_equal. f_equal.
      rewrite <- app_assoc. reflexivity.
    + change (marked (CallSync :: ?t)) with (marked t).
      rewrite marked_app, Hmarks. reflexivity.
    + rewrite occurrences_cons_sync, occurrences_app. simpl length. lia.
    + rewrite occurrences_cons_sync, occurrences_app. simpl length. lia.
Qed.


(** ** Rotations over an unchanging pool *)

Lemma run_cycle_candidates e db :
  (get_unshown_images (files_select e) (now_select e) db).2 ≠ [] →
  ∃ f, f ∈ (get_unshown_images (files_select e) (now_select e) db).2
       ∧ run_cycle e db
         = if set_wallpaper_hyprpaper (hypr e) f then
             (Some true,
              {| store := mark_image_displayed (files_record e) (now_record e) f
                            (get_unshown_images (files_select e) (now_select e) db).1;
                 trace := [CallGetUnshown; CallChoice f;
                           Log INFO ("Selected wallpaper: " +:+ f);
                           CallSetWallpaper f; CallMark f] |})
           else
             (Some false,
              {| store := (get_unshown_images (files_select e) (now_select e) db).1;
                 trace := [CallGetUnshown; CallChoice f;
                           Log INFO ("Selected wallpaper: " +:+ f);
                           CallSetWallpaper f] |}).
Proof.
  intros Hne. rewrite run_cycle_unfold. cbv zeta.
  rewrite bool_decide_eq_false_2 by exact Hne.
  edestruct (display_one_of_run e) as (f & _ & Hin & ->); [exact Hne|].
  exists f. split; [exact Hin | reflexivity].
Qed.

Lemma advance_closed N m :
  Nat.iter (S m) (advance N) 0%nat = (m mod N + 1)%nat.
Proof.
  destruct (decide (N = 0%nat)) as [->|HN].
  - induction m as [|m IH]; [reflexivity|].
    rewrite Nat.iter_succ, IH. unfold advance. simpl. lia.
  - induction m as [|m IH].
    + simpl. unfold advance. rewrite Nat.Div0.mod_0_l. reflexivity.
    + rewrite Nat.iter_succ, IH. unfold advance. f_equal.
      replace (S m) with (m + 1)%nat by lia.
      rewrite (Nat.Div0.add_mod m 1 N).
      rewrite (Nat.Div0.add_mod (m mod N) 1 N), Nat.Div0.mod_mod.
      reflexivity.
Qed.

Section Rotation.

Variable files : list string.

Hypothesis pool_NoDup : NoDup (get_available_images files).
Hypothesis pool_nonempty : get_available_images files ≠ [].

#[local] Abbreviation pool := (get_available_images files).

Lemma shown_size_le db :
  rotation_invariant files db →
  (size (shown_filenames db) ≤ length pool)%nat.
Proof.
  intros (_ & _ & Hsub & _). rewrite <- (size_pool files pool_NoDup).
  apply subseteq_size. exact Hsub.
Qed.

Lemma all_shown_iff_size db :
  rotation_invariant files db →
  all_shown db = true ↔ size (shown_filenames db) = length pool.
Proof.
  intros (Hinit & Hnn & Hsub & Hflag). rewrite Hflag.
  rewrite <- (size_pool files pool_NoDup). split.
  - intros Hall. apply Nat.le_antisymm; by apply subseteq_size.
  - intros Hsize. rewrite (set_subseteq_size_eq _ _ Hsub); [done|]. lia.
Qed.

(** After selection some pool image is left to show. *)
Lemma candidates_nonempty now db :
  rotation_invariant files db →
  (get_unshown_images files now db).2 ≠ [].
Proof.
  intros Hinv Hnil.
  pose proof (rotation_invariant_select files pool_NoDup pool_nonempty
                files now db Hinv)
    as (_ & _ & _ & Hflag).
  assert (Hclear : all_shown (get_unshown_images files now db).1 = false).
  { rewrite get_unshown_images_store. destruct (all_shown db) eqn:Hf;
      [apply all_shown_reset | exact Hf]. }
  rewrite <- not_true_iff_false, Hflag in Hclear. apply Hclear.
  intros f Hf. apply elem_of_list_to_set in Hf.
  destruct (decide (f ∈ shown_filenames (get_unshown_images files now db).1))
    as [Hs|Hs]; [exact Hs|].
  exfalso. eapply (filter_nil_not_elem_of _ _ f Hnil); [exact Hs | exact Hf].
Qed.

(** One cycle over the fixed pool with a working hyprpaper displays one
    image that was not shown, and records it. *)
Lemma rotation_step e db :
  steady files e → activates e →
  rotation_invariant files db → counts_01 db →
  ∃ f, f ∈ pool
       ∧ (f ∉ shown_filenames (get_unshown_images files (now_select e) db).1)
       ∧ marked (trace (run_cycle e db).2) = [f]
       ∧ store_after e db
         = mark_image_displayed files (now_record e) f
             (get_unshown_images files (now_select e) db).1
       ∧ rotation_invariant files (store_after e db)
       ∧ counts_01 (store_after e db)
       ∧ shown_filenames (store_after e db)
         = {[f]} ∪ shown_filenames (get_unshown_images files (now_select e) db).1.
Proof.
  intros (Hsel & Hret & Hrec) Hact Hinv H01.
  pose proof (candidates_nonempty (now_select e) db Hinv) as Hne.
  rewrite <- Hsel in Hne at 1.
  destruct (run_cycle_candidates e db Hne) as (f & Hf & Hrun).
  rewrite (Hact f), Hsel, Hrec in Hrun. rewrite Hsel in Hf.
  pose proof (rotation_invariant_select files pool_NoDup pool_nonempty files
                (now_select e) db Hinv) as Hinv1.
  pose proof (counts_01_get_unshown_images files (now_select e) db H01) as H011.
  pose proof (unshown_not_shown _ _ _ _ Hf) as Hfresh.
  apply elem_of_get_unshown_images in Hf.
  exists f. unfold store_after. rewrite Hrun. cbn [snd store trace].
  split_and!; try done.
  - by apply rotation_invariant_mark.
  - by apply counts_01_mark.
  - apply shown_filenames_mark. by apply counts_01_nonneg.
Qed.

Lemma size_after_step e db :
  steady files e → activates e →
  rotation_invariant files db → counts_01 db →
  size (shown_filenames (store_after e db))
  = advance (length pool) (size (shown_filenames db)).
Proof.
  intros Hst Hact Hinv H01.
  destruct (rotation_step e db Hst Hact Hinv H01)
    as (f & Hf & Hfresh & _ & _ & _ & _ & ->).
  rewrite size_union by (apply disjoint_singleton_l; exact Hfresh).
  rewrite size_singleton. revert Hfresh. rewrite get_unshown_images_store. unfold advance.
  pose proof (shown_size_le db Hinv) as Hle.
  destruct (all_shown db) eqn:Hflag.
  - apply (all_shown_iff_size db Hinv) in Hflag.
    rewrite shown_filenames_reset, size_empty, Hflag, Nat.Div0.mod_same.
    intros _. lia.
  - intros _.
    assert (size (shown_filenames db) ≠ length pool).
    { intros Heq. apply (all_shown_iff_size db Hinv) in Heq. congruence. }
    rewrite Nat.mod_small by lia. lia.
Qed.

Lemma rotation_cycles es : ∀ db,
  Forall (steady files) es → Forall activates es →
  rotation_invariant files db → counts_01 db →
  rotation_invariant files (cycles es db)
  ∧ counts_01 (cycles es db)
  ∧ size (shown_filenames (cycles es db))
    = Nat.iter (length es) (advance (length pool)) (size (shown_filenames db))
  ∧ length (cycle_marks es db) = length es.
Proof.
  induction es as [|e es IH]; intros db Hst Hact Hinv H01; [done|].
  apply Forall_cons in Hst as [Hst Hsts]. apply Forall_cons in Hact as [Hact Hacts].
  destruct (rotation_step e db Hst Hact Hinv H01)
    as (f & _ & _ & Hmarks & _ & Hinv' & H01' & _).
  destruct (IH (store_after e db) Hsts Hacts Hinv' H01')
    as (Hi & H0 & Hsize & Hlen).
  rewrite cycles_cons. cbn [cycle_marks]. rewrite Hmarks.
  split_and!; [exact Hi | exact H0 | | simpl; by rewrite Hlen].
  rewrite Hsize, (size_after_step e db Hst Hact Hinv H01).
  simpl length. rewrite Nat.iter_succ_r. reflexivity.
Qed.

(** The marks of a run that stays within one rotation. *)
Lemma first_rotation es : ∀ db,
  Forall (steady files) es → Forall activates es →
  rotation_invariant files db → counts_01 db →
  (size (shown_filenames db) + length es ≤ length pool)%nat →
  NoDup (cycle_marks es db)
  ∧ (∀ f, f ∈ cycle_marks es db → f ∈ pool ∧ f ∉ shown_filenames db)
  ∧ shown_filenames (cycles es db)
    = shown_filenames db ∪ list_to_set (cycle_marks es db).
Proof.
  induction es as [|e es IH]; intros db Hst Hact Hinv H01 Hroom.
  - split_and!; [constructor | intros f Hf; inversion Hf |].
    simpl. by rewrite union_empty_r_L.
  - apply Forall_cons in Hst as [Hst Hsts].
    apply Forall_cons in Hact as [Hact Hacts].
    destruct (rotation_step e db Hst Hact Hinv H01)
      as (f & Hf & Hfresh & Hmarks & _ & Hinv' & H01' & Hshown).
    assert (Hflag : all_shown db = false).
    { apply not_true_iff_false. intros Hset.
      apply (all_shown_iff_size db Hinv) in Hset. simpl in Hroom. lia. }
    rewrite get_unshown_images_store, Hflag in Hfresh, Hshown.
    assert (Hroom' : (size (shown_filenames (store_after e db)) + length es
                      ≤ length pool)%nat).
    { rewrite Hshown, size_union
        by (apply disjoint_singleton_l; exact Hfresh).
      rewrite size_singleton. simpl in Hroom. lia. }
    destruct (IH (store_after e db) Hsts Hacts Hinv' H01' Hroom')
      as (Hnd & Hin & Hall).
    rewrite cycles_cons. cbn [cycle_marks]. rewrite Hmarks. simpl.
    split_and!.
    + constructor; [|exact Hnd]. intros Hf'. apply Hin in Hf' as [_ Hf'].
      apply Hf'. rewrite Hshown. apply elem_of_union_l, elem_of_singleton.
      reflexivity.
    + intros g Hg. apply elem_of_cons in Hg as [->|Hg]; [by split|].
      apply Hin in Hg as [Hg1 Hg2]. split; [exact Hg1|].
      intros Hg3. apply Hg2. rewrite Hshown. by apply elem_of_union_r.
    + rewrite Hall, Hshown.
      rewrite (comm_L (∪) {[f]} (shown_filenames db)), <- (assoc_L (∪)).
      reflexivity.
Qed.

End Rotation.

Lemma fresh_store_shown : shown_filenames fresh_store = ∅.
Proof.
  apply set_eq. intros f. rewrite elem_of_shown_filenames. split.
  - intros (r & Hr & _). simpl in Hr. rewrite lookup_empty in Hr.
    discriminate Hr.
  - intros Hf. destruct (not_elem_of_empty (C:=gset string) f Hf).
Qed.

Lemma fresh_store_counts_01 : counts_01 fresh_store.
Proof. intros f r Hr. simpl in Hr. rewrite lookup_empty in Hr. discriminate Hr. Qed.

Lemma run_daemon_on_loop e0 es db :
  ∃ tr,
    run_daemon_on e0 es db
    = (Some tt, {| store := cycles (e0 :: es) db; trace := tr |})
    ∧ marked tr = cycle_marks (e0 :: es) db.
Proof.
  destruct (run_loop_spec (e0 :: es) {| store := db; trace := [] |})
    as (tr & Hrun & Hmarks & _).
  exists tr. split; [exact Hrun | exact Hmarks].
Qed.

(** X15: with the directory unchanged and hyprpaper accepting every image,
    each cycle of the daemon displays one image; after [m] cycles from a new
    installation over a pool of [N] images, ((m - 1) mod N) + 1 images are
    shown in the current rotation, and the flag is set exactly when [m] is a
    multiple of [N]. *)
Theorem daemon_rotation_progress files e0 es :
  NoDup files → get_available_images files ≠ [] →
  Forall (steady files) (e0 :: es) → Forall activates (e0 :: es) →
  let db := store (run_daemon_on e0 es fresh_store).2 in
  let N := length (get_available_images files) in
  size (shown_filenames db) = (length es mod N + 1)%nat
  ∧ (all_shown db = true ↔ (S (length es) mod N = 0)%nat)
  ∧ length (marked (trace (run_daemon_on e0 es fresh_store).2))
    = S (length es).
Proof.
  intros Hfiles Hne Hst Hact. cbv zeta.
  pose proof (NoDup_get_available_images files Hfiles) as Hnodup.
  destruct (run_daemon_on_loop e0 es fresh_store) as (tr & -> & Hmarks).
  cbn [snd store trace].
  destruct (rotation_cycles files Hnodup Hne (e0 :: es) fresh_store Hst Hact
              (rotation_invariant_fresh files Hnodup Hne) fresh_store_counts_01)
    as (Hinv & _ & Hsize & Hlen).
  rewrite fresh_store_shown, size_empty in Hsize.
  change (length (e0 :: es)) with (S (length es)) in Hsize, Hlen.
  rewrite advance_closed in Hsize.
  split_and!; [exact Hsize | | rewrite Hmarks; exact Hlen].
  rewrite (all_shown_iff_size files Hnodup _ Hinv), Hsize.
  set (N := length (get_available_images files)).
  assert (HN : N ≠ 0%nat) by (subst N; by destruct (get_available_images files)).
  replace (S (length es)) with (length es + 1)%nat by lia.
  rewrite (Nat.Div0.add_mod (length es) 1 N).
  pose proof (Nat.mod_upper_bound (length es) N HN) as Hr.
  destruct (decide (length es mod N + 1 = N)%nat) as [Heq|Hneq].
  - destruct (decide (N = 1%nat)) as [->|HN1].
    + rewrite !Nat.mod_1_r. simpl. lia.
    + rewrite (Nat.mod_small 1 N) by lia. rewrite Heq, Nat.Div0.mod_same. lia.
  - destruct (decide (N = 1%nat)) as [->|HN1]; [lia|].
    rewrite (Nat.mod_small 1 N) by lia.
    rewrite (Nat.mod_small (length es mod N + 1) N) by lia. lia.
Qed.

Lemma daemon_rotation_progress_witness :
  size (shown_filenames
          (store (run_daemon_on (steady_env ["a.png"; "b.png"] true hypr_ok "t1")
                    [steady_env ["a.png"; "b.png"] true hypr_ok "t2";
                     steady_env ["a.png"; "b.png"] true hypr_ok "t3"]
                    fresh_store).2))
  = 1%nat.
Proof.
  apply (daemon_rotation_progress ["a.png"; "b.png"]
           (steady_env ["a.png"; "b.png"] true hypr_ok "t1")
           [steady_env ["a.png"; "b.png"] true hypr_ok "t2";
            steady_env ["a.png"; "b.png"] true hypr_ok "t3"]).
  - apply (bool_decide_unpack _). vm_compute. reflexivity.
  - vm_compute. discriminate.
  - repeat constructor.
  - repeat constructor; intros image; reflexivity.
Defined.

(** X16: with the directory unchanged and hyprpaper accepting every image,
    the first [N] cycles of the daemon on a new installation, [N] being the
    size of the pool, display every pool image exactly once, in some order;
    every pool image then has [display_count] 1 and the flag is set. *)
Theorem first_rotation_each_image_once files e0 es :
  NoDup files →
  Forall (steady files) (e0 :: es) → Forall activates (e0 :: es) →
  S (length es) = length (get_available_images files) →
  let db := store (run_daemon_on e0 es fresh_store).2 in
  marked (trace (run_daemon_on e0 es fresh_store).2)
    ≡ₚ get_available_images files
  ∧ all_shown db = true
  ∧ ∀ f, f ∈ get_available_images files →
         ∃ r, wallpaper_history db !! f = Some r ∧ display_count r = 1.
Proof.
  intros Hfiles Hst Hact Hlen. cbv zeta.
  pose proof (NoDup_get_available_images files Hfiles) as Hnodup.
  assert (Hne : get_available_images files ≠ [])
    by (intros Hnil; rewrite Hnil in Hlen; discriminate Hlen).
  destruct (run_daemon_on_loop e0 es fresh_store) as (tr & -> & Hmarks).
  cbn [snd store trace]. rewrite Hmarks.
  pose proof (rotation_invariant_fresh files Hnodup Hne) as Hfresh.
  destruct (rotation_cycles files Hnodup Hne (e0 :: es) fresh_store Hst Hact
              Hfresh fresh_store_counts_01)
    as (Hinv & H01 & _ & Hmlen).
  destruct (first_rotation files Hnodup Hne (e0 :: es) fresh_store Hst Hact
              Hfresh fresh_store_counts_01)
    as (Hnd & Hin & Hshown).
  { rewrite fresh_store_shown, size_empty. simpl. lia. }
  assert (Hperm : cycle_marks (e0 :: es) fresh_store
                  ≡ₚ get_available_images files).
  { apply submseteq_length_Permutation.
    - apply NoDup_submseteq; [exact Hnd|]. intros f Hf. by apply Hin in Hf as [Hf _].
    - rewrite Hmlen. simpl. lia. }
  assert (Hall : shown_filenames (cycles (e0 :: es) fresh_store)
                 = list_to_set (get_available_images files)).
  { rewrite Hshown, fresh_store_shown, union_empty_l_L.
    apply set_eq. intros f. rewrite !elem_of_list_to_set. by rewrite Hperm. }
  split_and!.
  - exact Hperm.
  - destruct Hinv as (_ & _ & _ & Hflag). apply Hflag. by rewrite Hall.
  - intros f Hf.
    assert (Hs : f ∈ shown_filenames (cycles (e0 :: es) fresh_store))
      by (rewrite Hall; by apply elem_of_list_to_set).
    apply elem_of_shown_filenames in Hs as (r & Hr & Hpos).
    exists r. split; [exact Hr|].
    destruct (H01 f r Hr) as [H0|H1]; simpl in *; [lia | exact H1].
Qed.

Lemma first_rotation_each_image_once_witness :
  marked (trace (run_daemon_on (steady_env ["a.png"; "b.png"] true hypr_ok "t1")
                   [steady_env ["a.png"; "b.png"] true hypr_ok "t2"]
                   fresh_store).2)
  ≡ₚ ["a.png"; "b.png"].
Proof.
  apply (first_rotation_each_image_once ["a.png"; "b.png"]
           (steady_env ["a.png"; "b.png"] true hypr_ok "t1")
           [steady_env ["a.png"; "b.png"] true hypr_ok "t2"]).
  - apply (bool_decide_unpack _). vm_compute. reflexivity.
  - repeat constructor.
  - repeat constructor; intros image; reflexivity.
  - reflexivity.
Defined.

(** ** Rotations that run dry *)

Lemma filter_none {A} (P : A → Prop) `{!∀ x, Decision (P x)} (l : list A) :
  (∀ x, x ∈ l → ¬ P x) → filter P l = [].
Proof.
  intros Hl. induction l as [|x l IH]; [reflexivity|].
  rewrite filter_cons_False by (apply Hl; left).
  apply IH. intros y Hy. apply Hl. by right.
Qed.

Lemma occurrences_cons_eq ev (tr : list Event) :
  occurrences ev (ev :: tr) = S (occurrences ev tr).
Proof. unfold occurrences. by rewrite filter_cons_True. Qed.

(** X17: over an unchanging, non-empty pool the rotation never runs dry:
    in every store reached from a new installation, a cycle finds a
    candidate at the first selection, calls neither [sync_images] nor
    [get_unshown_images] again, and returns what
    [set_wallpaper_hyprpaper] returns for the image it picked. *)
Theorem steady_cycle_finds_candidate files e db :
  NoDup files → get_available_images files ≠ [] →
  reachable_fixed files db → steady files e →
  (CallSync ∉ trace (run_cycle e db).2)
  ∧ occurrences CallGetUnshown (trace (run_cycle e db).2) = 1%nat
  ∧ ∃ f, f ∈ get_available_images files
         ∧ CallSetWallpaper f ∈ trace (run_cycle e db).2
         ∧ (run_cycle e db).1 = Some (set_wallpaper_hyprpaper (hypr e) f).
Proof.
  intros Hfiles Hne Hreach (Hsel & _ & _).
  pose proof (NoDup_get_available_images files Hfiles) as Hnodup.
  pose proof (reachable_fixed_invariant files Hnodup Hne db Hreach) as Hinv.
  pose proof (candidates_nonempty files Hnodup Hne (now_select e) db Hinv) as Hcand.
  rewrite <- Hsel in Hcand at 1.
  destruct (run_cycle_candidates e db Hcand) as (f & Hf & Hrun).
  apply elem_of_get_unshown_images in Hf. rewrite Hsel in Hf.
  rewrite Hrun.
  destruct (set_wallpaper_hyprpaper (hypr e) f) eqn:Hact; cbn [fst snd trace].
  - split_and!.
    + intros H. trace_mem H.
    + rewrite occurrences_cons_eq, occurrences_absent; [reflexivity|].
      intros H. trace_mem H.
    + exists f. rewrite Hact.
      split_and!; [exact Hf | do 3 right; left | reflexivity].
  - split_and!.
    + intros H. trace_mem H.
    + rewrite occurrences_cons_eq, occurrences_absent; [reflexivity|].
      intros H. trace_mem H.
    + exists f. rewrite Hact.
      split_and!; [exact Hf | do 3 right; left | reflexivity].
Qed.

Lemma steady_cycle_finds_candidate_witness :
  occurrences CallGetUnshown
    (trace (run_cycle (steady_env ["a.png"] true hypr_ok "t2")
              store_a_shown).2)
  = 1%nat.
Proof.
  apply (steady_cycle_finds_candidate ["a.png"]
           (steady_env ["a.png"] true hypr_ok "t2") store_a_shown).
  - apply (bool_decide_unpack _). vm_compute. reflexivity.
  - vm_compute. discriminate.
  - apply (reachf_cycle ["a.png"] (steady_env ["a.png"] true hypr_ok "t1")
             fresh_store); [apply reachf_init | reflexivity..].
  - repeat constructor.
Defined.

Lemma stuck_cycle files e db :
  all_shown db = false →
  (∀ f, f ∈ get_available_images files → f ∈ shown_filenames db) →
  steady files e →
  (run_cycle e db).1 = Some false ∧ store_after e db = db
  ∧ marked (trace (run_cycle e db).2) = []
  ∧ display_free (trace (run_cycle e db).2).
Proof.
  intros Hflag Hall (Hsel & Hret & _).
  assert (Hnone : ∀ now, get_unshown_images files now db = (db, [])).
  { intros now. rewrite get_unshown_images_not_exhausted by exact Hflag.
    f_equal. apply filter_none. intros f Hf Hnot. apply Hnot, Hall, Hf. }
  unfold store_after. rewrite run_cycle_unfold. cbv zeta.
  rewrite Hsel, Hret, !Hnone. cbn [fst snd]. rewrite ?Hnone. cbn [fst snd].
  rewrite bool_decide_eq_true_2 by reflexivity.
  destruct (sync_ok e); cbn [fst snd store trace];
    (split_and!; [reflexivity..|display_free_tac]).
Qed.

(** X18: when every image of the pool is shown while the flag is clear
    (as after the deletion of the images not yet shown), a cycle over that
    directory fails, records nothing and leaves the store as it is; so does
    every later cycle for as long as the directory stays the same, whatever
    [rsync] and hyprpaper answer. *)
Theorem rotation_stuck_after_deletion files es db :
  all_shown db = false →
  Forall (fun f => f ∈ shown_filenames db) (get_available_images files) →
  Forall (steady files) es →
  cycles es db = db
  ∧ cycle_marks es db = []
  ∧ Forall (fun e => (run_cycle e db).1 = Some false) es.
Proof.
  intros Hflag Hall Hst. rewrite Forall_forall in Hall.
  induction es as [|e es IH]; [done|].
  apply Forall_cons in Hst as [Hst Hsts].
  destruct (stuck_cycle files e db Hflag Hall Hst) as (Hres & Hstore & Hmarks & _).
  destruct (IH Hsts) as (Hc & Hm & Hr).
  rewrite cycles_cons. cbn [cycle_marks]. rewrite Hstore, Hmarks, Hc, Hm.
  split_and!; [reflexivity | reflexivity |]. by constructor.
Qed.

Lemma rotation_stuck_after_deletion_witness :
  cycles [steady_env ["a.png"] true hypr_ok "t2";
          steady_env ["a.png"] false hypr_ok "t3"] store_c_stale
  = store_c_stale.
Proof.
  apply (rotation_stuck_after_deletion ["a.png"]
           [steady_env ["a.png"] true hypr_ok "t2";
            steady_env ["a.png"] false hypr_ok "t3"] store_c_stale).
  - vm_compute. reflexivity.
  - apply (bool_decide_unpack _). vm_compute. reflexivity.
  - repeat constructor.
Defined.

(** ** Loading the configuration *)

Lemma missing_fields_object fields members :
  missing_fields fields (JObject members)
  = Some (filter (fun field => members !! field = None) fields).
Proof.
  induction fields as [|field rest IH]; [reflexivity|].
  cbn [missing_fields field_in]. rewrite IH.
  destruct (members !! field) as [v|] eqn:Hv.
  - rewrite bool_decide_eq_true_2 by (by eexists).
    rewrite filter_cons_False by (rewrite Hv; discriminate). reflexivity.
  - rewrite bool_decide_eq_false_2 by (intros [v Hv']; discriminate Hv').
    rewrite filter_cons_True by exact Hv. reflexivity.
Qed.

Lemma lookup_setdefault key value config k :
  setdefault key value config !! k
  = match config !! k with
    | Some v => Some v
    | None => if decide (key = k) then Some value else None
    end.
Proof.
  unfold setdefault. destruct (config !! key) as [v|] eqn:Hkey.
  - destruct (config !! k) eqn:Hk; [reflexivity|].
    case_decide; [congruence | reflexivity].
  - rewrite lookup_insert. case_decide as Heq.
    + subst k. rewrite Hkey. reflexivity.
    + by destruct (config !! k).
Qed.

Lemma lookup_set_defaults config k :
  set_defaults config !! k
  = match config !! k with
    | Some v => Some v
    | None =>
        if decide (k = "interval_minutes") then Some (JInt 30)
        else if decide (k = "rsync_port") then Some (JInt 22)
        else if decide (k = "log_level") then Some (JString "INFO")
        else if decide (k = "hyprpaper_monitors")
             then Some (JArray [JString "all"])
        else None
    end.
Proof.
  unfold set_defaults. rewrite !lookup_setdefault.
  destruct (config !! k); [reflexivity|].
  repeat (case_decide; simplify_eq; try reflexivity).
Qed.

(** X19: [load_config] returns a configuration exactly when the file
    decodes to a JSON object that has the four required fields; what it
    returns is that object with the defaults filled in. *)
Theorem load_config_success file config :
  load_config file = inr config ↔
  ∃ members,
    file = Decoded (JObject members)
    ∧ (∀ field, field ∈ required → is_Some (members !! field))
    ∧ config = set_defaults members.
Proof.
  split.
  - destruct file as [| | |value]; try discriminate. unfold load_config.
    destruct value as [| | | | | |members];
      try (destruct (missing_fields required _) as [[|]|]; discriminate).
    rewrite missing_fields_object.
    destruct (filter _ required) as [|f l] eqn:Hmiss; [|discriminate].
    intros [= <-]. exists members. split_and!; [reflexivity| |reflexivity].
    intros field Hfield.
    destruct (members !! field) as [v|] eqn:Hv; [by eexists|].
    exfalso. eapply (filter_nil_not_elem_of _ _ field Hmiss); [exact Hv | exact Hfield].
  - intros (members & -> & Hreq & ->). unfold load_config.
    rewrite missing_fields_object.
    rewrite filter_none; [reflexivity|].
    intros field Hfield Hnone.
    destruct (Hreq field Hfield) as [v Hv]. congruence.
Qed.

(** X20: the configuration [load_config] returns keeps every value of the
    file, has all eight fields the program reads, and loads to itself when
    written back: the defaults only ever fill fields that are absent. *)
Theorem load_config_defaults members config :
  load_config (Decoded (JObject members)) = inr config →
  (∀ k v, members !! k = Some v → config !! k = Some v)
  ∧ (∀ k, k ∈ (required ++ ["interval_minutes"; "rsync_port"; "log_level";
                             "hyprpaper_monitors"])%list →
          is_Some (config !! k))
  ∧ (members !! "interval_minutes" = None →
     config !! "interval_minutes" = Some (JInt 30))
  ∧ (members !! "hyprpaper_monitors" = None →
     config !! "hyprpaper_monitors" = Some (JArray [JString "all"]))
  ∧ load_config (Decoded (JObject config)) = inr config.
Proof.
  unfold load_config. rewrite missing_fields_object.
  destruct (filter _ required) as [|f l] eqn:Hmiss; [|discriminate].
  intros [= <-].
  assert (Hkeep : ∀ k v, members !! k = Some v →
                         set_defaults members !! k = Some v).
  { intros k v Hk. by rewrite lookup_set_defaults, Hk. }
  assert (Hreq : ∀ field, field ∈ required → is_Some (members !! field)).
  { intros field Hfield.
    destruct (members !! field) as [v|] eqn:Hv; [by eexists|].
    exfalso. eapply (filter_nil_not_elem_of _ _ field Hmiss); [exact Hv | exact Hfield]. }
  split_and!.
  - exact Hkeep.
  - intros k Hk. apply elem_of_app in Hk as [Hk|Hk].
    + destruct (Hreq k Hk) as [v Hv]. exists v. by apply Hkeep.
    + rewrite lookup_set_defaults. destruct (members !! k); [by eexists|].
      repeat (apply elem_of_cons in Hk as [->|Hk]); try (by eexists).
      inversion Hk.
  - intros Hnone. by rewrite lookup_set_defaults, Hnone.
  - intros Hnone. by rewrite lookup_set_defaults, Hnone.
  - rewrite missing_fields_object.
    rewrite filter_none.
    + f_equal. apply map_eq. intros k. rewrite lookup_set_defaults.
      destruct (set_defaults members !! k) as [v|] eqn:Hk; [reflexivity|].
      rewrite lookup_set_defaults in Hk.
      destruct (members !! k); [discriminate Hk | exact Hk].
    + intros field Hfield Hnone.
      destruct (Hreq field Hfield) as [v Hv].
      rewrite (Hkeep field v Hv) in Hnone. discriminate Hnone.
Qed.

(** X21: for a JSON object, [load_config] raises [ValueError] exactly when a
    required field is absent, and the error names the absent required fields,
    all of them, in the order [remote_host], [remote_user],
    [remote_directory], [local_directory]. *)
Theorem load_config_missing_fields members missing :
  load_config (Decoded (JObject members)) = inl (ValueError missing) ↔
  missing ≠ []
  ∧ missing = filter (fun field => members !! field = None) required.
Proof.
  unfold load_config. rewrite missing_fields_object.
  destruct (filter _ required) as [|f l] eqn:Hmiss.
  - split; [discriminate | intros [Hne ->]; done].
  - split; [intros [= <-]; done | intros [_ ->]; reflexivity].
Qed.

Lemma load_config_defaults_witness :
  load_config (Decoded (JObject (set_defaults minimal_config)))
  = inr (set_defaults minimal_config).
Proof.
  apply (load_config_defaults minimal_config (set_defaults minimal_config)).
  vm_compute. reflexivity.
Defined.
